(** * Streamer-Sales: avatar cache, render pipeline and login endpoint

    A shallow embedding of
      - [utils/digital_human/realtime_inference.py]: [video2imgs],
        [osmakedirs], [Avatar.init], [Avatar.prepare_material],
        [Avatar.process_frames], [Avatar.inference];
      - [server/base/routers/users.py]: [get_user], [authenticate_user],
        [login].

    Stateful code is written in a small state-and-exception monad over the
    avatar object and its working directory; the two threads of a render
    are a step relation over a shared render state.  The neural models,
    OpenCV, ffmpeg, bcrypt and the JWT encoder are collaborators: they are
    fields of the classes [Models] and [Auth]. *)

From Stdlib Require Import ZArith NArith List String Ascii Lia.
From Stdlib Require Import DecimalString DecimalN Sorted Permutation.
From stdpp Require Import base option list strings gmap.
Import ListNotations.

Local Open Scope string_scope.
Local Open Scope list_scope.

(** ** Python builtins used by the two files *)

Module Py.

(** Exceptions that the modelled code can raise. *)
Inductive exn : Type :=
  | FileNotFoundError (path : string)
  | ValueError (what : string)
  | IndexError
  | ZeroDivisionError
  | ValidationError
  | CollaboratorError (who : string)
  | HTTPException (status_code : Z) (detail : string).

(** [str(n)] for a non-negative integer. *)
Definition str (n : N) : string := NilEmpty.string_of_uint (N.to_uint n).

(** [s.zfill(width)] for a string without a sign. *)
Definition zfill (width : nat) (s : string) : string :=
  string_of_list_ascii (replicate (width - String.length s) "0"%char) ++ s.

(** [f"{n:08d}"] and [str(n).zfill(8)] coincide on non-negative [n]. *)
Definition fmt08 (n : N) : string := zfill 8 (str n).

(** Whitespace that [int] strips (the ASCII part of Python's table). *)
Definition is_space (c : ascii) : bool :=
  let n := nat_of_ascii c in
  ((9 <=? n)%nat && (n <=? 13)%nat) || ((28 <=? n)%nat && (n <=? 32)%nat).

Fixpoint lstrip (cs : list ascii) : list ascii :=
  match cs with
  | c :: cs' => if is_space c then lstrip cs' else cs
  | [] => []
  end.

Definition strip (cs : list ascii) : list ascii :=
  rev (lstrip (rev (lstrip cs))).

(** Underscores in an integer literal stand singly between two digits. *)
Fixpoint underscores_ok (prev_digit : bool) (cs : list ascii) : bool :=
  match cs with
  | [] => prev_digit
  | c :: cs' =>
      if Ascii.eqb c "_" then prev_digit && underscores_ok false cs'
      else underscores_ok true cs'
  end.

(** [int(s)], base ten: surrounding whitespace, an optional sign, decimal
    digits with single underscores between them.  [None] is [ValueError]. *)
Definition int (s : string) : option Z :=
  let cs := strip (list_ascii_of_string s) in
  let negative :=
    match cs with c :: _ => Ascii.eqb c "-" | [] => false end in
  let signed :=
    match cs with
    | c :: _ => Ascii.eqb c "-" || Ascii.eqb c "+"
    | [] => false
    end in
  let body := if signed then tl cs else cs in
  if underscores_ok false body then
    match NilEmpty.uint_of_string
            (string_of_list_ascii
               (List.filter (fun c => negb (Ascii.eqb c "_")) body)) with
    | Some d =>
        let v := Z.of_N (N.of_uint d) in
        Some (if negative then (- v)%Z else v)
    | None => None
    end
  else None.

(** Position of the last ["."] of [cs], counted from the left. *)
Fixpoint rfind_dot (i : nat) (cs : list ascii) : option nat :=
  match cs with
  | [] => None
  | c :: cs' =>
      match rfind_dot (S i) cs' with
      | Some j => Some j
      | None => if Ascii.eqb c "." then Some i else None
      end
  end.

(** [os.path.splitext(name)[0]] for a name without a directory part: the
    name up to its last dot, unless only dots precede that dot. *)
Definition splitext_stem (name : string) : string :=
  let cs := list_ascii_of_string name in
  match rfind_dot 0 cs with
  | Some i =>
      if forallb (fun c => Ascii.eqb c ".") (firstn i cs) then name
      else string_of_list_ascii (firstn i cs)
  | None => name
  end.

(** [name.split(".")[-1]]. *)
Definition last_dot_segment (name : string) : string :=
  let cs := list_ascii_of_string name in
  match rfind_dot 0 cs with
  | Some i => string_of_list_ascii (skipn (S i) cs)
  | None => name
  end.

Definition in_class (c : ascii) (cls : list ascii) : bool :=
  existsb (Ascii.eqb c) cls.

Definition ends_in_gG (cs : list ascii) : bool :=
  match rev cs with
  | c :: _ => in_class c ["g"; "G"]%char
  | [] => false
  end.

(** Some dot of [cs] is followed by one of [jpJP], one of [pnPN], and a
    non-empty rest whose last character is one of [gG]. *)
Fixpoint fnmatch_tail (cs : list ascii) : bool :=
  match cs with
  | [] => false
  | c :: r =>
      (Ascii.eqb c "." &&
       match r with
       | c1 :: c2 :: rest =>
           in_class c1 ["j"; "p"; "J"; "P"]%char &&
           in_class c2 ["p"; "n"; "P"; "N"]%char && ends_in_gG rest
       | _ => false
       end)
      || fnmatch_tail r
  end.

(** A directory entry matches the glob pattern [*.[jpJP][pnPN]*[gG]];
    [glob] never lets a leading [*] match a hidden (dot-first) entry. *)
Definition glob_img_match (name : string) : bool :=
  match list_ascii_of_string name with
  | "."%char :: _ => false
  | cs => fnmatch_tail cs
  end.

(** Stable insertion sort: [sorted(l)] with [le] the order of the keys. *)
Section Sorted.
Context {A : Type} (le : A -> A -> bool).

Fixpoint insert_sorted (x : A) (l : list A) : list A :=
  match l with
  | [] => [x]
  | y :: l' => if le x y then x :: y :: l' else y :: insert_sorted x l'
  end.

Definition sorted (l : list A) : list A := foldr insert_sorted [] l.
End Sorted.

(** [sorted(l, key=...)] with integer keys. *)
Definition sorted_by_key {A : Type} (key : A -> Z) (l : list A) : list A :=
  sorted (fun a b => (key a <=? key b)%Z) l.

(** [sorted(l)] on strings compares code points lexicographically. *)
Definition sorted_str (l : list string) : list string := sorted String.leb l.

End Py.

(** ** Collaborators and data of the digital-human pipeline *)

(** A face bounding box [(x1, y1, x2, y2)]. *)
Definition BBox : Type := (Z * Z * Z * Z)%type.

(** [coord_placeholder]: the marker of a frame without a usable face.
    Python compares [(0, 0, 0, 0) == (0.0, 0.0, 0.0, 0.0)] as equal. *)
Definition coord_placeholder : BBox := (0, 0, 0, 0)%Z.

Definition bbox_eqb (a b : BBox) : bool := bool_decide (a = b).

Inductive Interpolation := INTER_LINEAR | INTER_LANCZOS4.

(** The code outside this file that the pipeline calls.  [None] stands
    for a raised exception. *)
Class Models : Type := {
  (** numpy images (frames, crops, masks) *)
  ndarray : Type;
  (** torch latent codes *)
  tensor : Type;
  (** one audio feature chunk *)
  whisper_chunk : Type;
  (** [get_landmark_and_bbox(img_list, pose_model, bbox_shift)], on the
      files of [img_list] in that order: [(coord_list, frame_list)] *)
  get_landmark_and_bbox :
    list (string * ndarray) -> Z -> option (list BBox * list ndarray);
  (** [frame[y1:y2, x1:x2]] *)
  crop : ndarray -> BBox -> ndarray;
  (** [cv2.resize(img, (w, h), interpolation=...)] *)
  cv2_resize : Interpolation -> ndarray -> Z -> Z -> option ndarray;
  (** [img.astype(np.uint8)] *)
  astype_uint8 : ndarray -> ndarray;
  (** [vae.get_latents_for_unet(img)] *)
  get_latents_for_unet : ndarray -> option tensor;
  (** [get_image_prepare_material(frame, face_box, face_parsing_model)] *)
  get_image_prepare_material : ndarray -> BBox -> option (ndarray * BBox);
  (** [get_image_blending(ori_frame, res_frame, bbox, mask, mask_crop_box)] *)
  get_image_blending :
    ndarray -> ndarray -> BBox -> ndarray -> BBox -> option ndarray;
  (** [audio2feat] followed by [feature2chunks(..., fps)] *)
  whisper_chunks_of : string -> Z -> list whisper_chunk;
  (** the successive values of [recon] in the driving loop of [inference]:
      [datagen], the positional encoding, the UNet and
      [vae.decode_latents] applied to the chunks, the latent cycle and the
      batch size *)
  recon_batches :
    list whisper_chunk -> list tensor -> Z -> list (list ndarray);
}.

(** What [video_path] points at. *)
Inductive Source `{Models} : Type :=
  | SourceVideo (decoded : list ndarray)
  | SourceDir (entries : list (string * ndarray))
  | SourceMissing.

(** [avatar_info], the manifest written to [avator_info.json]. *)
Record AvatarInfo : Type := mkAvatarInfo {
  info_avatar_id : string;
  info_video_path : string;
  info_bbox_shift : Z;
}.

(** The tree under [avatar_path].  A directory is the list of its entries
    in listing order; [None] is a file or directory that does not exist. *)
Record AvatarDir `{Models} : Type := mkAvatarDir {
  avator_info_json : option AvatarInfo;
  full_imgs : option (list (string * ndarray));
  vid_output : bool;
  mask : option (list (string * ndarray));
  coords_pkl : option (list BBox);
  mask_coords_pkl : option (list BBox);
  latents_pt : option (list tensor);
  tmp : option (list (string * ndarray));
  temp_mp4 : bool;
}.

Arguments mkAvatarDir {_}.

Definition empty_dir `{Models} : AvatarDir :=
  mkAvatarDir None None false None None None None None false.

(** The paths the code names. *)
Inductive Path :=
  | avatar_path | avatar_info_path | full_imgs_path | video_out_path
  | mask_out_path | coords_path | mask_coords_path | latents_out_path
  | tmp_path | temp_mp4_path | output_vid_path | source_path.

Inductive Collaborator :=
  | LoadPoseModel | GetLandmarkAndBbox | Cv2Resize | GetLatentsForUnet
  | GetImagePrepareMaterial | Audio2Feature.

(** Effects in program order. *)
Inductive Event :=
  | EvRmtree (p : Path)
  | EvMakedirs (p : Path)
  | EvDump (p : Path)
  | EvLoad (p : Path)
  | EvImwrite (p : Path) (name : string)
  | EvImread (p : Path) (name : string)
  | EvGlob (p : Path)
  | EvListdir (p : Path)
  | EvCopyfile (name : string)
  | EvVideoRead
  | EvCall (c : Collaborator)
  | EvSystem (cmd : string)
  | EvRemove (p : Path).

(** The fields of an [Avatar] object that the modelled methods use. *)
Record Avatar `{Models} : Type := mkAvatar {
  avatar_id : string;
  video_path : string;
  bbox_shift : Z;
  preparation_force : bool;
  batch_size : Z;
  idx : Z;
  frame_list_cycle : list ndarray;
  coord_list_cycle : list BBox;
  input_latent_list_cycle : list tensor;
  mask_coords_list_cycle : list BBox;
  mask_list_cycle : list ndarray;
}.

Arguments mkAvatar {_}.

Definition avatar_info `{Models} (self : Avatar) : AvatarInfo :=
  mkAvatarInfo (avatar_id self) (video_path self) (bbox_shift self).

(** The state the methods run in: the object, its working directory
    ([None]: [avatar_path] does not exist) and the effects so far. *)
Record State `{Models} : Type := mkState {
  self : Avatar;
  workdir : option AvatarDir;
  log : list Event;
}.

Arguments mkState {_}.

(** ** A state-and-exception monad for the methods of [Avatar] *)

Inductive result (A : Type) : Type :=
  | Ok (a : A)
  | Raise (e : Py.exn).
Arguments Ok {A} a.
Arguments Raise {A} e.

Definition M `{Models} (A : Type) : Type := State -> State * result A.

Definition ret `{Models} {A} (a : A) : M A := fun s => (s, Ok a).

Definition bind `{Models} {A B} (c : M A) (k : A -> M B) : M B :=
  fun s =>
    match c s with
    | (s', Ok a) => k a s'
    | (s', Raise e) => (s', Raise e)
    end.

Definition raise `{Models} {A} (e : Py.exn) : M A := fun s => (s, Raise e).

Notation "x <- c1 ;; c2" := (bind c1 (fun x => c2))
  (at level 100, c1 at next level, c2 at level 200, right associativity).
Notation "c1 ;; c2" := (bind c1 (fun _ => c2))
  (at level 100, c2 at level 200, right associativity).

Definition get_self `{Models} : M Avatar := fun s => (s, Ok (self s)).

Definition set_self `{Models} (a : Avatar) : M unit :=
  fun s => (mkState a (workdir s) (log s), Ok tt).

Definition update_self `{Models} (f : Avatar -> Avatar) : M unit :=
  a <- get_self ;; set_self (f a).

Definition get_workdir `{Models} : M (option AvatarDir) :=
  fun s => (s, Ok (workdir s)).

Definition set_workdir `{Models} (d : option AvatarDir) : M unit :=
  fun s => (mkState (self s) d (log s), Ok tt).

Definition emit `{Models} (e : Event) : M unit :=
  fun s => (mkState (self s) (workdir s) (log s ++ [e]), Ok tt).

(** Lift a collaborator's answer. *)
Definition call `{Models} {A} (c : Collaborator) (who : string)
    (r : option A) : M A :=
  emit (EvCall c) ;;
  match r with
  | Some a => ret a
  | None => raise (Py.CollaboratorError who)
  end.

(** *** The working directory *)

Definition image_dir `{Models} (p : Path) (d : AvatarDir)
  : option (list (string * ndarray)) :=
  match p with
  | full_imgs_path => full_imgs d
  | mask_out_path => mask d
  | tmp_path => tmp d
  | _ => None
  end.

Definition set_image_dir `{Models} (p : Path)
    (v : option (list (string * ndarray))) (d : AvatarDir) : AvatarDir :=
  match p with
  | full_imgs_path =>
      mkAvatarDir (avator_info_json d) v (vid_output d) (mask d)
        (coords_pkl d) (mask_coords_pkl d) (latents_pt d) (tmp d) (temp_mp4 d)
  | mask_out_path =>
      mkAvatarDir (avator_info_json d) (full_imgs d) (vid_output d) v
        (coords_pkl d) (mask_coords_pkl d) (latents_pt d) (tmp d) (temp_mp4 d)
  | tmp_path =>
      mkAvatarDir (avator_info_json d) (full_imgs d) (vid_output d) (mask d)
        (coords_pkl d) (mask_coords_pkl d) (latents_pt d) v (temp_mp4 d)
  | _ => d
  end.

Definition set_avator_info_json `{Models} (v : option AvatarInfo)
    (d : AvatarDir) : AvatarDir :=
  mkAvatarDir v (full_imgs d) (vid_output d) (mask d)
    (coords_pkl d) (mask_coords_pkl d) (latents_pt d) (tmp d) (temp_mp4 d).

Definition set_vid_output `{Models} (v : bool) (d : AvatarDir) : AvatarDir :=
  mkAvatarDir (avator_info_json d) (full_imgs d) v (mask d)
    (coords_pkl d) (mask_coords_pkl d) (latents_pt d) (tmp d) (temp_mp4 d).

Definition set_coords_pkl `{Models} (v : option (list BBox))
    (d : AvatarDir) : AvatarDir :=
  mkAvatarDir (avator_info_json d) (full_imgs d) (vid_output d) (mask d)
    v (mask_coords_pkl d) (latents_pt d) (tmp d) (temp_mp4 d).

Definition set_mask_coords_pkl `{Models} (v : option (list BBox))
    (d : AvatarDir) : AvatarDir :=
  mkAvatarDir (avator_info_json d) (full_imgs d) (vid_output d) (mask d)
    (coords_pkl d) v (latents_pt d) (tmp d) (temp_mp4 d).

Definition set_latents_pt `{Models} (v : option (list tensor))
    (d : AvatarDir) : AvatarDir :=
  mkAvatarDir (avator_info_json d) (full_imgs d) (vid_output d) (mask d)
    (coords_pkl d) (mask_coords_pkl d) v (tmp d) (temp_mp4 d).

Definition set_temp_mp4 `{Models} (v : bool) (d : AvatarDir) : AvatarDir :=
  mkAvatarDir (avator_info_json d) (full_imgs d) (vid_output d) (mask d)
    (coords_pkl d) (mask_coords_pkl d) (latents_pt d) (tmp d) v.

(** Writing [name] into a directory: over the entry of that name, or as
    a new last entry. *)
Fixpoint alist_write {V : Type} (name : string) (v : V)
    (l : list (string * V)) : list (string * V) :=
  match l with
  | [] => [(name, v)]
  | (n, w) :: l' =>
      if String.eqb n name then (name, v) :: l'
      else (n, w) :: alist_write name v l'
  end.

(** [os.path.exists(self.avatar_path)] *)
Definition exists_avatar_path `{Models} : M bool :=
  d <- get_workdir ;; ret (bool_decide (is_Some d)).

(** [shutil.rmtree(self.avatar_path)] *)
Definition rmtree_avatar_path `{Models} : M unit :=
  d <- get_workdir ;;
  emit (EvRmtree avatar_path) ;;
  match d with
  | Some _ => set_workdir None
  | None => raise (Py.FileNotFoundError "avatar_path")
  end.

(** [os.makedirs(path)] for the directories the code creates; missing
    parents are created too. *)
Definition makedirs_in `{Models} (p : Path) (d : AvatarDir) : AvatarDir :=
  match p with
  | full_imgs_path | mask_out_path | tmp_path => set_image_dir p (Some []) d
  | video_out_path => set_vid_output true d
  | _ => d
  end.

Definition path_is_dir `{Models} (p : Path) (w : option AvatarDir) : bool :=
  match w, p with
  | None, _ => false
  | Some _, avatar_path => true
  | Some d, video_out_path => vid_output d
  | Some d, _ => bool_decide (is_Some (image_dir p d))
  end.

Definition makedirs `{Models} (p : Path) : M unit :=
  w <- get_workdir ;;
  emit (EvMakedirs p) ;;
  set_workdir (Some (makedirs_in p (default empty_dir w))).

(** Opening a file of the working directory for writing needs the
    directory; the file is then replaced by what is dumped. *)
Definition dump_file `{Models} (p : Path) (what : string)
    (write : AvatarDir -> AvatarDir) : M unit :=
  w <- get_workdir ;;
  match w with
  | Some d => emit (EvDump p) ;; set_workdir (Some (write d))
  | None => raise (Py.FileNotFoundError what)
  end.

(** Opening a file for reading ([open], [torch.load]). *)
Definition load_file `{Models} {A} (p : Path) (what : string)
    (read : AvatarDir -> option A) : M A :=
  w <- get_workdir ;;
  emit (EvLoad p) ;;
  match w ≫= read with
  | Some a => ret a
  | None => raise (Py.FileNotFoundError what)
  end.

(** [cv2.imwrite(f"{dir}/{name}", img)]: writes when the directory is
    there and returns [False] without raising when it is not. *)
Definition imwrite `{Models} (p : Path) (name : string) (img : ndarray)
  : M unit :=
  w <- get_workdir ;;
  emit (EvImwrite p name) ;;
  match w with
  | Some d =>
      match image_dir p d with
      | Some files =>
          set_workdir (Some (set_image_dir p (Some (alist_write name img files)) d))
      | None => ret tt
      end
  | None => ret tt
  end.

(** [glob.glob(os.path.join(dir, "*.[jpJP][pnPN]*[gG]"))]: the matching
    entries in listing order, none when the directory is missing. *)
Definition glob_imgs `{Models} (p : Path) : M (list (string * ndarray)) :=
  w <- get_workdir ;;
  emit (EvGlob p) ;;
  ret (List.filter (fun e => Py.glob_img_match (fst e))
         (default [] (w ≫= image_dir p))).

(** [read_imgs(img_list)]: the images in the order of the list. *)
Fixpoint read_imgs `{Models} (p : Path) (img_list : list (string * ndarray))
  : M (list ndarray) :=
  match img_list with
  | [] => ret []
  | (name, img) :: rest =>
      emit (EvImread p name) ;;
      frames <- read_imgs p rest ;;
      ret (img :: frames)
  end.

(** ** [video2imgs] *)

Definition cut_frame_default : N := 10000000.

(** The loop of [video2imgs]: [cap] holds the frames [cap.read()] still
    returns with [ret] true; at its end [ret] is false. *)
Fixpoint video2imgs_loop `{Models} (save_path : Path) (cut_frame : N)
    (cap : list ndarray) (count : N) : M unit :=
  if (cut_frame <? count)%N then ret tt
  else
    emit EvVideoRead ;;
    match cap with
    | frame :: cap' =>
        imwrite save_path (Py.fmt08 count ++ ".png") frame ;;
        video2imgs_loop save_path cut_frame cap' (count + 1)%N
    | [] => ret tt
    end.

Definition video2imgs `{Models} (vid : list ndarray) (save_path : Path)
    (cut_frame : N) : M unit :=
  video2imgs_loop save_path cut_frame vid 0%N.

(** ** [osmakedirs] *)

Fixpoint osmakedirs `{Models} (path_list : list Path) : M unit :=
  match path_list with
  | [] => ret tt
  | path :: rest =>
      w <- get_workdir ;;
      (if path_is_dir path w then ret tt else makedirs path) ;;
      osmakedirs rest
  end.

(** ** [Avatar.prepare_material] *)

(** [shutil.copyfile] of each listed file into [full_imgs_path]. *)
Fixpoint copy_files `{Models} (files : list (string * ndarray)) : M unit :=
  match files with
  | [] => ret tt
  | (filename, img) :: rest =>
      w <- get_workdir ;;
      emit (EvCopyfile filename) ;;
      match w ≫= full_imgs with
      | Some entries =>
          set_workdir
            (set_image_dir full_imgs_path
               (Some (alist_write filename img entries)) <$> w) ;;
          copy_files rest
      | None => raise (Py.FileNotFoundError filename)
      end
  end.

(** The first loop: one latent per frame whose box is not the
    placeholder; the others are passed over. *)
Fixpoint encode_latents `{Models} (pairs : list (BBox * ndarray))
    (input_latent_list : list tensor) : M (list tensor) :=
  match pairs with
  | [] => ret input_latent_list
  | (bbox, frame) :: rest =>
      if bbox_eqb bbox coord_placeholder then
        encode_latents rest input_latent_list
      else
        let crop_frame := crop frame bbox in
        resized_crop_frame <-
          call Cv2Resize "cv2.resize"
            (cv2_resize INTER_LANCZOS4 crop_frame 256 256) ;;
        latents <-
          call GetLatentsForUnet "get_latents_for_unet"
            (get_latents_for_unet resized_crop_frame) ;;
        encode_latents rest (input_latent_list ++ [latents])
  end.

Definition set_cycles `{Models} (frames : list ndarray) (coords : list BBox)
    (latents : list tensor) (a : Avatar) : Avatar :=
  mkAvatar (avatar_id a) (video_path a) (bbox_shift a) (preparation_force a)
    (batch_size a) (idx a) frames coords latents [] [].

Definition append_mask `{Models} (crop_box : BBox) (m : ndarray)
    (a : Avatar) : Avatar :=
  mkAvatar (avatar_id a) (video_path a) (bbox_shift a) (preparation_force a)
    (batch_size a) (idx a) (frame_list_cycle a) (coord_list_cycle a)
    (input_latent_list_cycle a)
    (mask_coords_list_cycle a ++ [crop_box]) (mask_list_cycle a ++ [m]).

(** The second loop, over [enumerate(self.frame_list_cycle)] from [i]. *)
Fixpoint build_masks `{Models} (i : nat) (frames : list ndarray) : M unit :=
  match frames with
  | [] => ret tt
  | frame :: rest =>
      imwrite full_imgs_path (Py.zfill 8 (Py.str (N.of_nat i)) ++ ".png") frame ;;
      a <- get_self ;;
      match coord_list_cycle a !! i with
      | None => raise Py.IndexError
      | Some face_box =>
          r <-
            call GetImagePrepareMaterial "get_image_prepare_material"
              (get_image_prepare_material frame face_box) ;;
          let '(m, crop_box) := r in
          imwrite mask_out_path (Py.zfill 8 (Py.str (N.of_nat i)) ++ ".png") m ;;
          update_self (append_mask crop_box m) ;;
          build_masks (S i) rest
      end
  end.

(** [files.sort()] on directory entries compares their names. *)
Definition sort_entries {V : Type} (l : list (string * V)) : list (string * V) :=
  Py.sorted (fun a b => String.leb (fst a) (fst b)) l.

Definition materialize_frames `{Models} (src : Source) : M unit :=
  match src with
  | SourceVideo decoded =>
      (* os.path.isfile(self.video_path) *)
      video2imgs decoded full_imgs_path cut_frame_default
  | SourceDir entries =>
      emit (EvListdir source_path) ;;
      let files := sort_entries entries in
      let files :=
        List.filter (fun e => String.eqb (Py.last_dot_segment (fst e)) "png")
          files in
      copy_files files
  | SourceMissing =>
      emit (EvListdir source_path) ;;
      raise (Py.FileNotFoundError "video_path")
  end.

Definition prepare_material `{Models} (src : Source) : M unit :=
  a <- get_self ;;
  dump_file avatar_info_path "avator_info.json"
    (set_avator_info_json (Some (avatar_info a))) ;;
  materialize_frames src ;;
  input_img_list <- glob_imgs full_imgs_path ;;
  let input_img_list := sort_entries input_img_list in
  emit (EvCall LoadPoseModel) ;;
  r <- call GetLandmarkAndBbox "get_landmark_and_bbox"
         (get_landmark_and_bbox input_img_list (bbox_shift a)) ;;
  let '(coord_list, frame_list) := r in
  input_latent_list <- encode_latents (zip coord_list frame_list) [] ;;
  update_self
    (set_cycles (frame_list ++ reverse frame_list)
       (coord_list ++ reverse coord_list)
       (input_latent_list ++ reverse input_latent_list)) ;;
  build_masks 0 (frame_list ++ reverse frame_list) ;;
  a <- get_self ;;
  dump_file mask_coords_path "mask_coords.pkl"
    (set_mask_coords_pkl (Some (mask_coords_list_cycle a))) ;;
  a <- get_self ;;
  dump_file coords_path "coords.pkl"
    (set_coords_pkl (Some (coord_list_cycle a))) ;;
  a <- get_self ;;
  dump_file latents_out_path "latents.pt"
    (set_latents_pt (Some (input_latent_list_cycle a))).

(** ** [Avatar.init] *)

(** [int(os.path.splitext(os.path.basename(x))[0])] *)
Definition stem_key (name : string) : option Z :=
  Py.int (Py.splitext_stem name).

(** The keys [sorted] computes before it compares anything. *)
Fixpoint with_stem_keys `{Models} (l : list (string * ndarray))
  : M (list (Z * (string * ndarray))) :=
  match l with
  | [] => ret []
  | e :: rest =>
      match stem_key (fst e) with
      | Some k => keyed <- with_stem_keys rest ;; ret ((k, e) :: keyed)
      | None => raise (Py.ValueError (fst e))
      end
  end.

Definition sort_by_stem `{Models} (l : list (string * ndarray))
  : M (list (string * ndarray)) :=
  keyed <- with_stem_keys l ;;
  ret (map snd (Py.sorted_by_key fst keyed)).

Definition set_input_latent_list_cycle `{Models} (v : list tensor)
    (a : Avatar) : Avatar :=
  mkAvatar (avatar_id a) (video_path a) (bbox_shift a) (preparation_force a)
    (batch_size a) (idx a) (frame_list_cycle a) (coord_list_cycle a) v
    (mask_coords_list_cycle a) (mask_list_cycle a).

Definition set_coord_list_cycle `{Models} (v : list BBox)
    (a : Avatar) : Avatar :=
  mkAvatar (avatar_id a) (video_path a) (bbox_shift a) (preparation_force a)
    (batch_size a) (idx a) (frame_list_cycle a) v (input_latent_list_cycle a)
    (mask_coords_list_cycle a) (mask_list_cycle a).

Definition set_frame_list_cycle `{Models} (v : list ndarray)
    (a : Avatar) : Avatar :=
  mkAvatar (avatar_id a) (video_path a) (bbox_shift a) (preparation_force a)
    (batch_size a) (idx a) v (coord_list_cycle a) (input_latent_list_cycle a)
    (mask_coords_list_cycle a) (mask_list_cycle a).

Definition set_mask_coords_list_cycle `{Models} (v : list BBox)
    (a : Avatar) : Avatar :=
  mkAvatar (avatar_id a) (video_path a) (bbox_shift a) (preparation_force a)
    (batch_size a) (idx a) (frame_list_cycle a) (coord_list_cycle a)
    (input_latent_list_cycle a) v (mask_list_cycle a).

Definition set_mask_list_cycle `{Models} (v : list ndarray)
    (a : Avatar) : Avatar :=
  mkAvatar (avatar_id a) (video_path a) (bbox_shift a) (preparation_force a)
    (batch_size a) (idx a) (frame_list_cycle a) (coord_list_cycle a)
    (input_latent_list_cycle a) (mask_coords_list_cycle a) v.

Definition set_idx `{Models} (v : Z) (a : Avatar) : Avatar :=
  mkAvatar (avatar_id a) (video_path a) (bbox_shift a) (preparation_force a)
    (batch_size a) v (frame_list_cycle a) (coord_list_cycle a)
    (input_latent_list_cycle a) (mask_coords_list_cycle a) (mask_list_cycle a).

(** The three branches that decide [need_to_prepare]. *)
Definition decide_need_to_prepare `{Models} : M bool :=
  a <- get_self ;;
  present <- exists_avatar_path ;;
  if preparation_force a && present then
    rmtree_avatar_path ;; ret true
  else if negb present then
    ret true
  else
    stored <- load_file avatar_info_path "avator_info.json" avator_info_json ;;
    if bool_decide (info_bbox_shift stored ≠ info_bbox_shift (avatar_info a))
    then rmtree_avatar_path ;; ret true
    else ret false.

(** The unconditional loads that end [init]. *)
Definition load_materials `{Models} : M unit :=
  latents <- load_file latents_out_path "latents.pt" latents_pt ;;
  update_self (set_input_latent_list_cycle latents) ;;
  coords <- load_file coords_path "coords.pkl" coords_pkl ;;
  update_self (set_coord_list_cycle coords) ;;
  input_img_list <- glob_imgs full_imgs_path ;;
  input_img_list <- sort_by_stem input_img_list ;;
  frames <- read_imgs full_imgs_path input_img_list ;;
  update_self (set_frame_list_cycle frames) ;;
  mask_coords <- load_file mask_coords_path "mask_coords.pkl" mask_coords_pkl ;;
  update_self (set_mask_coords_list_cycle mask_coords) ;;
  input_mask_list <- glob_imgs mask_out_path ;;
  input_mask_list <- sort_by_stem input_mask_list ;;
  masks <- read_imgs mask_out_path input_mask_list ;;
  update_self (set_mask_list_cycle masks).

Definition init `{Models} (src : Source) : M unit :=
  need_to_prepare <- decide_need_to_prepare ;;
  (if need_to_prepare : bool then
     osmakedirs [avatar_path; full_imgs_path; video_out_path; mask_out_path] ;;
     prepare_material src
   else ret tt) ;;
  load_materials.

(** ** [Avatar.process_frames]: the consumer thread *)

(** [l[i % len(l)]] *)
Definition cyclic_get `{Models} {A} (l : list A) (i : Z) : M A :=
  if bool_decide (length l = 0%nat) then raise Py.ZeroDivisionError
  else
    match l !! Z.to_nat (i mod Z.of_nat (length l)) with
    | Some x => ret x
    | None => raise Py.IndexError
    end.

Inductive FrameOutcome := Composited | Skipped.

(** One pass of the loop body after [res_frame_queue.get] has returned
    [res_frame].  A failed resize is caught and the pass ends by
    [continue], with [self.idx] as it was. *)
Definition process_frame `{Models} (skip_save_images : bool)
    (res_frame : ndarray) : M FrameOutcome :=
  a <- get_self ;;
  bbox <- cyclic_get (coord_list_cycle a) (idx a) ;;
  ori_frame <- cyclic_get (frame_list_cycle a) (idx a) ;;
  let '(x1, y1, x2, y2) := bbox in
  match cv2_resize INTER_LINEAR (astype_uint8 res_frame)
          (x2 - x1) (y2 - y1) with
  | None => ret Skipped
  | Some res_frame =>
      mask_img <- cyclic_get (mask_list_cycle a) (idx a) ;;
      mask_crop_box <- cyclic_get (mask_coords_list_cycle a) (idx a) ;;
      match get_image_blending ori_frame res_frame bbox mask_img
              mask_crop_box with
      | None => raise (Py.CollaboratorError "get_image_blending")
      | Some combine_frame =>
          (if skip_save_images then ret tt
           else imwrite tmp_path
                  (Py.zfill 8 (Py.str (Z.to_N (idx a))) ++ ".png")
                  combine_frame) ;;
          update_self (set_idx (idx a + 1)%Z) ;;
          ret Composited
      end
  end.

Inductive Thread :=
  | Running
  | Returned
  | Died (e : Py.exn).

(** The state two threads of one render share: the object and the disk,
    the handoff queue, the batches of reconstructed crops the driving
    thread has still to put (head first), the consumer thread, and a
    count of the passes that ended in the [except] branch. *)
Record Render `{Models} : Type := mkRender {
  st : State;
  res_frame_queue : list ndarray;
  to_put : list (list ndarray);
  process_thread : Thread;
  skipped : nat;
}.
Arguments mkRender {_}.

(** One iteration of [while True] in [process_frames]. *)
Definition process_frames_iter `{Models} (video_len : Z)
    (skip_save_images : bool) (r : Render) : Render :=
  match process_thread r with
  | Running =>
      if bool_decide (idx (self (st r)) >= video_len - 1)%Z then
        mkRender (st r) (res_frame_queue r) (to_put r) Returned (skipped r)
      else
        match res_frame_queue r with
        | [] => r (* queue.Empty after the timeout: continue *)
        | res_frame :: q =>
            match process_frame skip_save_images res_frame (st r) with
            | (s, Ok Composited) =>
                mkRender s q (to_put r) Running (skipped r)
            | (s, Ok Skipped) =>
                mkRender s q (to_put r) Running (S (skipped r))
            | (s, Raise e) =>
                mkRender s q (to_put r) (Died e) (skipped r)
            end
        end
  | _ => r
  end.

(** The interleavings of the driving thread (its [put]s, batch after
    batch) and the consumer thread. *)
Inductive render_step `{Models} (video_len : Z) (skip_save_images : bool)
  : Render -> Render -> Prop :=
  | step_put r res_frame recon rest :
      to_put r = (res_frame :: recon) :: rest ->
      render_step video_len skip_save_images r
        (mkRender (st r) (res_frame_queue r ++ [res_frame]) (recon :: rest)
           (process_thread r) (skipped r))
  | step_next_batch r rest :
      to_put r = [] :: rest ->
      render_step video_len skip_save_images r
        (mkRender (st r) (res_frame_queue r) rest (process_thread r)
           (skipped r))
  | step_consumer r :
      process_thread r = Running ->
      render_step video_len skip_save_images r
        (process_frames_iter video_len skip_save_images r).

(** [process_thread.join()] returns: nothing is left to put and the
    consumer thread has ended. *)
Definition joined `{Models} (r : Render) : Prop :=
  to_put r = [] /\ process_thread r <> Running.

(** The queue once the driving thread has put everything. *)
Definition flush `{Models} (r : Render) : Render :=
  mkRender (st r) (res_frame_queue r ++ concat (to_put r)) []
    (process_thread r) (skipped r).

Fixpoint consume `{Models} (video_len : Z) (skip_save_images : bool)
    (n : nat) (r : Render) : Render :=
  match n with
  | O => r
  | S n' =>
      consume video_len skip_save_images n'
        (process_frames_iter video_len skip_save_images r)
  end.

(** The consumer run over everything the producer puts: one iteration
    per queued crop and one more for the closing test. *)
Definition settle `{Models} (video_len : Z) (skip_save_images : bool)
    (r : Render) : Render :=
  consume video_len skip_save_images
    (S (length (res_frame_queue (flush r)))) (flush r).

(** ** [Avatar.inference] *)

(** How one [os.system("ffmpeg ...")] ended: the exit status, which the
    code does not look at, and whether the output file was written. *)
Record EncoderRun : Type := mkEncoderRun {
  exit_status : Z;
  wrote_output : bool;
}.

Definition encoder_ok (e : EncoderRun) : Prop := exit_status e = 0%Z.

(** From the entry of [inference] to [process_thread.start()]. *)
Definition inference_start `{Models} (audio_path : string) (fps : Z)
  : M (list whisper_chunk) :=
  (* os.makedirs(self.avatar_path + "/tmp", exist_ok=True) *)
  w <- get_workdir ;;
  (if path_is_dir tmp_path w then ret tt else makedirs tmp_path) ;;
  emit (EvCall Audio2Feature) ;;
  let whisper_chunks := whisper_chunks_of audio_path fps in
  update_self (set_idx 0) ;;
  ret whisper_chunks.

(** The render state when the consumer thread starts. *)
Definition start_render `{Models} (s : State)
    (whisper_chunks : list whisper_chunk) : Render :=
  mkRender s []
    (recon_batches whisper_chunks (input_latent_list_cycle (self s))
       (batch_size (self s)))
    Running 0.

Definition video_num `{Models} (whisper_chunks : list whisper_chunk) : Z :=
  Z.of_nat (length whisper_chunks).

(** [os.system(cmd_img2video)]: ffmpeg writes [temp.mp4] or not. *)
Definition system_img2video `{Models} (run : EncoderRun) : M Z :=
  w <- get_workdir ;;
  emit (EvSystem "cmd_img2video") ;;
  (if wrote_output run then set_workdir (set_temp_mp4 true <$> w)
   else ret tt) ;;
  ret (exit_status run).

(** [os.system(cmd_combine_audio)]: its output is [output_vid]. *)
Definition system_combine_audio `{Models} (run : EncoderRun) : M Z :=
  emit (EvSystem "cmd_combine_audio") ;;
  ret (exit_status run).

(** [os.remove(f"{self.avatar_path}/temp.mp4")] *)
Definition remove_temp_mp4 `{Models} : M unit :=
  w <- get_workdir ;;
  emit (EvRemove temp_mp4_path) ;;
  match w with
  | Some d =>
      if temp_mp4 d then set_workdir (Some (set_temp_mp4 false d))
      else raise (Py.FileNotFoundError "temp.mp4")
  | None => raise (Py.FileNotFoundError "temp.mp4")
  end.

(** [shutil.rmtree(f"{self.avatar_path}/tmp")] *)
Definition rmtree_tmp `{Models} : M unit :=
  w <- get_workdir ;;
  emit (EvRmtree tmp_path) ;;
  match w with
  | Some d =>
      match tmp d with
      | Some _ => set_workdir (Some (set_image_dir tmp_path None d))
      | None => raise (Py.FileNotFoundError "tmp")
      end
  | None => raise (Py.FileNotFoundError "tmp")
  end.

(** From the return of [process_thread.join()] to the end. *)
Definition inference_finish `{Models} (output_vid : string)
    (img2video combine_audio : EncoderRun) : M string :=
  system_img2video img2video ;;
  system_combine_audio combine_audio ;;
  remove_temp_mp4 ;;
  rmtree_tmp ;;
  ret output_vid.

(** A call of [inference] that returns or raises: the start, some
    interleaving of the two threads up to the join, and the end. *)
Inductive inference `{Models} (audio_path output_vid : string) (fps : Z)
    (skip_save_images : bool) (img2video combine_audio : EncoderRun)
  : State -> State -> result string -> Prop :=
  | inference_intro s s1 whisper_chunks r s2 res :
      inference_start audio_path fps s = (s1, Ok whisper_chunks) ->
      rtc (render_step (video_num whisper_chunks) skip_save_images)
        (start_render s1 whisper_chunks) r ->
      joined r ->
      inference_finish output_vid img2video combine_audio (st r) = (s2, res) ->
      inference audio_path output_vid fps skip_save_images
        img2video combine_audio s s2 res.

(** ** [server/base/routers/users.py] *)

Module Users.

(** bcrypt, the JWT encoder and the two settings of [WEB_CONFIGS]. *)
Class Auth : Type := {
  (** [PWD_CONTEXT.verify(plain_password, hashed_password)] *)
  pwd_verify : string -> string -> bool;
  TOKEN_JWT_SECURITY_KEY : string;
  TOKEN_JWT_ALGORITHM : string;
}.

(** An entry of the user database, as the dictionary literal has it. *)
Record UserDict : Type := mkUserDict {
  d_username : string;
  d_user_id : string;
  d_ip_address : string;
  d_email : string;
  d_hashed_password : string;
  d_disabled : bool;
}.

Definition fake_users_db : gmap string UserDict :=
  {[ "hingwen.wong" :=
       mkUserDict "hingwen.wong" "1" "127.0.0.1" "peterhuang0323@qq.com"
         "$2b$12$zXXveodjipHZMoSxJz5ODul7Z9YeRJd0GeSBjpwHdqEtBbAFvEdre"
         false ]}.

Record UserInfo : Type := mkUserInfo {
  username : string;
  user_id : Z;
  ip_adress : option string;
  disabled : option bool;
  full_name : option string;
  email : option string;
  hashed_password : option string;
}.

(** The [UserInfo] model built from a dictionary entry: the integer field is read off the string;
    the key [ip_address] is no field of the model and is dropped, so
    [ip_adress] and [full_name] keep their default [None]. *)
Definition validate_user (user_dict : UserDict) : result UserInfo :=
  match Py.int (d_user_id user_dict) with
  | Some n =>
      Ok (mkUserInfo (d_username user_dict) n None
            (Some (d_disabled user_dict)) None (Some (d_email user_dict))
            (Some (d_hashed_password user_dict)))
  | None => Raise Py.ValidationError
  end.

Definition get_user (db : gmap string UserDict) (name : string)
  : result (option UserInfo) :=
  match db !! name with
  | Some user_dict =>
      match validate_user user_dict with
      | Ok u => Ok (Some u)
      | Raise e => Raise e
      end
  | None => Ok None
  end.

(** passlib answers [False] for a missing hash. *)
Definition verify_password `{Auth} (plain_password : string)
    (hashed : option string) : bool :=
  match hashed with
  | Some h => pwd_verify plain_password h
  | None => false
  end.

(** [None] is the [False] the function returns for a failed check. *)
Definition authenticate_user `{Auth} (db_name : gmap string UserDict)
    (name password : string) : result (option UserInfo) :=
  match get_user db_name name with
  | Raise e => Raise e
  | Ok None => Ok None
  | Ok (Some user_info) =>
      if negb (verify_password password (hashed_password user_info))
      then Ok None
      else Ok (Some user_info)
  end.

(** The claims that [login] signs. *)
Record TokenData : Type := mkTokenData {
  tok_user_id : Z;
  tok_username : string;
  tok_exp : Z;
  tok_ip : option string;
  tok_login_time : Z;
}.

(** A signed token: the payload with the key and algorithm it was
    encoded under ([jwt.encode] is invertible under the key). *)
Record Jwt : Type := mkJwt {
  jwt_payload : TokenData;
  jwt_key : string;
  jwt_algorithm : string;
}.

Record TokenItem : Type := mkTokenItem {
  access_token : Jwt;
  token_type : string;
}.

Record LoginForm : Type := mkLoginForm {
  form_username : string;
  form_password : string;
}.

Definition seven_days_us : Z := 7 * 86400 * 1000000.

(** [int(t.timestamp())] for an aware datetime [t] given in microseconds
    since the epoch: the seconds, truncated toward zero. *)
Definition int_timestamp (t_us : Z) : Z := Z.quot t_us 1000000.

(** [login] against a database; [now1] and [now2] are what the two calls
    of [datetime.now(timezone.utc)] return, in microseconds since the
    epoch. *)
Definition login_with `{Auth} (db : gmap string UserDict)
    (form_data : LoginForm) (now1 now2 : Z) : result TokenItem :=
  match authenticate_user db (form_username form_data)
          (form_password form_data) with
  | Raise e => Raise e
  | Ok None =>
      Raise (Py.HTTPException 401 "Incorrect username or password")
  | Ok (Some user_info) =>
      let token_expires := (now1 + seven_days_us)%Z in
      let token_data :=
        mkTokenData (user_id user_info) (username user_info)
          (int_timestamp token_expires) (ip_adress user_info)
          (int_timestamp now2) in
      let token :=
        mkJwt token_data TOKEN_JWT_SECURITY_KEY TOKEN_JWT_ALGORITHM in
      Ok (mkTokenItem token "bearer")
  end.

Definition login `{Auth} (form_data : LoginForm) (now1 now2 : Z)
  : result TokenItem :=
  login_with fake_users_db form_data now1 now2.

End Users.

(** ** A small instance of the collaborators, to run the model on

    Images, latents and chunks are integers.  A negative image is one
    OpenCV cannot resize and the pose model finds no face in. *)

Module Demo.

Definition demo_bbox (shift img : Z) : BBox :=
  if (img <? 0)%Z then coord_placeholder else (0, 0, 10 + shift, 10)%Z.

Definition demo_resize (i : Interpolation) (img w h : Z) : option Z :=
  if (0 <? w)%Z && (0 <? h)%Z && (0 <=? img)%Z then Some img else None.

Definition models : Models := {|
  ndarray := Z;
  tensor := Z;
  whisper_chunk := Z;
  get_landmark_and_bbox := fun files shift =>
    Some (map (fun e => demo_bbox shift (snd e)) files, map snd files);
  crop := fun img _ => img;
  cv2_resize := demo_resize;
  astype_uint8 := fun img => img;
  get_latents_for_unet := fun img => Some (img + 1000)%Z;
  get_image_prepare_material := fun frame box => Some ((frame + 2000)%Z, box);
  get_image_blending := fun ori res _ _ _ => Some (ori * 1000 + res)%Z;
  whisper_chunks_of := fun audio _ =>
    map (fun c => Z.of_nat (nat_of_ascii c)) (list_ascii_of_string audio);
  recon_batches := fun chunks _ _ => map (fun w => [(w - 100)%Z]) chunks;
|}.

(** A fresh [Avatar] object before [init]. *)
Definition avatar (shift : Z) (force : bool) : @Avatar models :=
  @mkAvatar models "lelemiao" "/path/to/video.mp4" shift force 2 0
    [] [] [] [] [].

Definition fresh (shift : Z) (force : bool) : @State models :=
  @mkState models (avatar shift force) None [].

(** The working directory as [init] makes it before it prepares. *)
Definition made (shift : Z) : @State models :=
  fst (@osmakedirs models
         [avatar_path; full_imgs_path; video_out_path; mask_out_path]
         (fresh shift false)).

(** A five-frame video with a face in every frame. *)
Definition video5 : @Source models := @SourceVideo models [1; 2; 3; 4; 5]%Z.

(** A three-frame video whose middle frame shows no face. *)
Definition video3_noface : @Source models :=
  @SourceVideo models [1; -2; 3]%Z.

(** The avatar of [video5] after [init]. *)
Definition ready5 : @State models := fst (@init models video5 (fresh 0 false)).

(** A new [Avatar] object over the working directory [ready5] left. *)
Definition reopened (shift : Z) (force : bool) : @State models :=
  @mkState models (avatar shift force) (@workdir models ready5) [].

(** Seven chunks whose crops all resize (["n"] is 110). *)
Definition audio7 : string := "nnnnnnn".

(** Seven chunks; the crop of the third does not resize (["a"] is 97). *)
Definition audio7_bad3 : string := "nnannnn".

(** The render state of [inference] on [audio] when the consumer thread
    starts, for the avatar of [video5]. *)
Definition started (audio : string) : @Render models :=
  @start_render models (fst (@inference_start models audio 25 ready5))
    (@whisper_chunks_of models audio 25).

Definition auth : Users.Auth := {|
  Users.pwd_verify := fun plain _ => String.eqb plain "123456";
  Users.TOKEN_JWT_SECURITY_KEY := "secret";
  Users.TOKEN_JWT_ALGORITHM := "HS256";
|}.

End Demo.

(** ** Vocabulary of the statements *)

Definition is_digit (c : ascii) : bool :=
  let n := nat_of_ascii c in (48 <=? n)%nat && (n <=? 57)%nat.

(** [f"{i:08d}.png"]: the file of frame number [i]. *)
Definition frame_name (i : Z) : string :=
  Py.zfill 8 (Py.str (Z.to_N i)) ++ ".png".

(** The digit strings [zfill] produces. *)
Definition padded (k : nat) (d : Decimal.uint) : list ascii :=
  (replicate k "0"%char ++ list_ascii_of_string (NilEmpty.string_of_uint d))%list.

(** The entries of the temporary frame directory. *)
Definition tmp_of `{Models} (s : State) : option (list (string * ndarray)) :=
  workdir s ≫= tmp.

Definition died (t : Thread) : nat :=
  match t with Died _ => 1 | _ => 0 end.

Definition running (t : Thread) : nat :=
  match t with Running => 1 | _ => 0 end.

(** What is left to do in a render; every step that is not a timed-out
    [get] lowers it. *)
Definition work_left `{Models} (r : Render) : nat :=
  2 * length (concat (to_put r)) + length (to_put r)
  + length (res_frame_queue r) + running (process_thread r).

(** The render states some interleaving reaches. *)
Definition reachable `{Models} (video_len : Z) (skip_save_images : bool)
    (r0 r : Render) : Prop :=
  rtc (render_step video_len skip_save_images) r0 r.

(** What holds of every reachable state of a render of [total] crops. *)
Record render_inv `{Models} (video_len : Z) (total : nat)
    (skip_save_images : bool) (r : Render) : Prop := mkRenderInv {
  inv_idx_lo : (0 <= idx (self (st r)))%Z;
  inv_idx_hi : (idx (self (st r)) <= Z.max (video_len - 1) 0)%Z;
  inv_returned :
    process_thread r = Returned -> (video_len - 1 <= idx (self (st r)))%Z;
  inv_count :
    (length (res_frame_queue r) + length (concat (to_put r))
     + Z.to_nat (idx (self (st r))) + skipped r + died (process_thread r)
     = total)%nat;
  inv_tmp :
    skip_save_images = false ->
    map fst <$> tmp_of (st r)
    = Some (frame_name <$> seqZ 0 (idx (self (st r))));
}.

(** The handoff queue never holds more than [capacity] crops, whatever
    the render and the interleaving. *)
Definition queue_bounded `{Models} (capacity : nat) : Prop :=
  forall (s : State) (whisper_chunks : list whisper_chunk)
         (skip_save_images : bool) (r : Render),
    reachable (video_num whisper_chunks) skip_save_images
      (start_render s whisper_chunks) r ->
    (length (res_frame_queue r) <= capacity)%nat.

(** The number of crops a render state still has or will have queued. *)
Definition in_flight `{Models} (r : Render) : nat :=
  length (res_frame_queue r) + length (concat (to_put r)).

(** The temporary artifacts of a render: the intermediate silent video
    and the directory of composited frames. *)
Definition artifacts_removed `{Models} (s : State) : Prop :=
  exists d, workdir s = Some d /\ temp_mp4 d = false /\ tmp d = None.

Definition artifacts_in_place `{Models} (s : State) : Prop :=
  exists d, workdir s = Some d /\ temp_mp4 d = true /\ is_Some (tmp d).

(** The cleanup rule as the specification words it: removal when both
    encoder runs exit with status zero, no removal when one does not. *)
Definition cleanup_follows_exit_status `{Models} (s : State)
    (output_vid : string) (img2video combine_audio : EncoderRun) : Prop :=
  let s' := fst (inference_finish output_vid img2video combine_audio s) in
  (encoder_ok img2video /\ encoder_ok combine_audio -> artifacts_removed s') /\
  (~ (encoder_ok img2video /\ encoder_ok combine_audio) ->
   artifacts_in_place s').

(** A computation relates every state it starts in to the state it ends
    in, whether it returns or raises. *)
Definition respects `{Models} {A} (R : State -> State -> Prop) (c : M A)
  : Prop :=
  forall s, R s (fst (c s)).

Definition same_self `{Models} (s s' : State) : Prop := self s' = self s.

(** The identity of the avatar (what the manifest records) is kept. *)
Definition same_info `{Models} (s s' : State) : Prop :=
  avatar_info (self s') = avatar_info (self s).

Definition same_workdir `{Models} (s s' : State) : Prop :=
  workdir s' = workdir s.

(** The manifest is untouched and no artifact disappears. *)
Definition dir_le `{Models} (d d' : AvatarDir) : Prop :=
  avator_info_json d' = avator_info_json d /\
  (is_Some (full_imgs d) -> is_Some (full_imgs d')) /\
  (is_Some (mask d) -> is_Some (mask d')) /\
  (is_Some (coords_pkl d) -> is_Some (coords_pkl d')) /\
  (is_Some (mask_coords_pkl d) -> is_Some (mask_coords_pkl d')) /\
  (is_Some (latents_pt d) -> is_Some (latents_pt d')).

(** The log only grows, and an existing working directory stays, with
    its manifest and at least its artifacts. *)
Definition grows `{Models} (s s' : State) : Prop :=
  (exists l, log s' = log s ++ l) /\
  (forall d, workdir s = Some d ->
     exists d', workdir s' = Some d' /\ dir_le d d').

(** The pairs of the first loop of [prepare_material] that get a latent:
    those whose box is not the placeholder. *)
Definition valid_pairs `{Models} (coord_list : list BBox)
    (frame_list : list ndarray) : list (BBox * ndarray) :=
  List.filter (fun p => negb (bbox_eqb (fst p) coord_placeholder))
    (zip coord_list frame_list).

(** What [get_landmark_and_bbox] returns in a run of [prepare_material]
    from [s]: it is called on the sorted image files of [full_imgs_path]
    as they are once the source frames are materialized. *)
Definition landmark_pass `{Models} (src : Source) (s : State)
  : option (list BBox * list ndarray) :=
  let s1 :=
    fst ((dump_file avatar_info_path "avator_info.json"
            (set_avator_info_json (Some (avatar_info (self s)))) ;;
          materialize_frames src) s) in
  get_landmark_and_bbox
    (sort_entries
       (List.filter (fun e => Py.glob_img_match (fst e))
          (default [] (workdir s1 ≫= image_dir full_imgs_path))))
    (bbox_shift (self s)).

(** The five cyclic lists of an avatar all have length [L]. *)
Definition cycles_have_length `{Models} (a : Avatar) (L : nat) : Prop :=
  length (frame_list_cycle a) = L /\
  length (coord_list_cycle a) = L /\
  length (input_latent_list_cycle a) = L /\
  length (mask_list_cycle a) = L /\
  length (mask_coords_list_cycle a) = L.

(** The cycle invariant as the specification words it: after a
    preparation whose landmark pass found [N] frames with a box other
    than the placeholder, every cycle has length [2 * N] and no
    placeholder box is in the box cycle. *)
Definition cycles_exclude_placeholder `{Models} (src : Source) (s : State)
  : Prop :=
  forall s' coord_list frame_list,
    prepare_material src s = (s', Ok tt) ->
    landmark_pass src s = Some (coord_list, frame_list) ->
    cycles_have_length (self s')
      (2 * length (valid_pairs coord_list frame_list)) /\
    coord_placeholder ∉ coord_list_cycle (self s').

(** A list that reads the same from both ends. *)
Definition mirrored {A} (l : list A) : Prop :=
  forall i, (i < length l)%nat -> l !! i = l !! (length l - 1 - i)%nat.

(** The three conditions under which [init] prepares the avatar anew. *)
Definition need_rebuild `{Models} (s : State) : Prop :=
  workdir s = None \/
  preparation_force (self s) = true \/
  exists d stored,
    workdir s = Some d /\ avator_info_json d = Some stored /\
    info_bbox_shift stored <> bbox_shift (self s).

(** The manifest and the five artifacts are on disk, the manifest with
    the parameters of the avatar. *)
Definition rebuilt `{Models} (a : Avatar) (d : AvatarDir) : Prop :=
  avator_info_json d = Some (avatar_info a) /\
  is_Some (full_imgs d) /\ is_Some (mask d) /\
  coords_pkl d = Some (coord_list_cycle a) /\
  mask_coords_pkl d = Some (mask_coords_list_cycle a) /\
  latents_pt d = Some (input_latent_list_cycle a).

(** The events that only read the disk. *)
Definition is_read_event (e : Event) : bool :=
  match e with
  | EvLoad _ | EvGlob _ | EvImread _ _ => true
  | _ => false
  end.

(** Nothing on disk changes and nothing but reads is logged. *)
Definition only_reads `{Models} (s s' : State) : Prop :=
  workdir s' = workdir s /\
  exists l, log s' = log s ++ l /\ Forall (fun e => is_read_event e = true) l.

(** Directory entries in the order of the numbers their stems read as. *)
Definition stem_le {V} (e1 e2 : string * V) : Prop :=
  exists k1 k2,
    stem_key (fst e1) = Some k1 /\ stem_key (fst e2) = Some k2 /\ (k1 <= k2)%Z.

(** [sorted] is what [sorted(glob(dir), key=int(stem))] makes of a
    directory: its image files, in the order of their numbers. *)
Definition numerically_sorted `{Models} (dir : option (list (string * ndarray)))
    (sorted : list (string * ndarray)) : Prop :=
  Permutation
    (List.filter (fun e => Py.glob_img_match (fst e)) (default [] dir)) sorted /\
  Sorted stem_le sorted.

(** The events of the five loads of [init], for the image lists read. *)
Definition load_events `{Models} (full_list mask_list : list (string * ndarray))
  : list Event :=
  [EvLoad latents_out_path; EvLoad coords_path; EvGlob full_imgs_path]
  ++ map (fun e => EvImread full_imgs_path (fst e)) full_list
  ++ [EvLoad mask_coords_path; EvGlob mask_out_path]
  ++ map (fun e => EvImread mask_out_path (fst e)) mask_list.

(** * Facts about the builtins *)

Section PyFacts.

Lemma list_ascii_of_string_app (a b : string) :
  list_ascii_of_string (a ++ b) =
  (list_ascii_of_string a ++ list_ascii_of_string b)%list.
Proof. induction a as [|c a IH]; simpl; [done|]. by rewrite IH. Qed.

Lemma string_of_list_ascii_app (a b : list ascii) :
  string_of_list_ascii (a ++ b)%list =
  (string_of_list_ascii a ++ string_of_list_ascii b)%string.
Proof. induction a as [|c a IH]; simpl; [done|]. by rewrite IH. Qed.

Lemma digits_of_uint (d : Decimal.uint) :
  Forall (fun c => is_digit c = true)
    (list_ascii_of_string (NilEmpty.string_of_uint d)).
Proof. induction d; simpl; constructor; auto. Qed.

Lemma digit_not (c : ascii) (other : ascii) :
  is_digit c = true -> is_digit other = false -> Ascii.eqb c other = false.
Proof.
  intros Hc Ho. destruct (Ascii.eqb_spec c other) as [->|]; [congruence|done].
Qed.

Lemma digit_not_space c : is_digit c = true -> Py.is_space c = false.
Proof.
  unfold is_digit, Py.is_space. cbv zeta.
  generalize (nat_of_ascii c). intros n Hn.
  apply andb_true_iff in Hn as [H1%Nat.leb_le H2%Nat.leb_le].
  apply orb_false_iff; split; apply andb_false_iff.
  - right. apply Nat.leb_gt. lia.
  - right. apply Nat.leb_gt. lia.
Qed.

Lemma padded_digits k d : Forall (fun c => is_digit c = true) (padded k d).
Proof.
  apply Forall_app; split; [|apply digits_of_uint].
  apply Forall_replicate. reflexivity.
Qed.

Lemma zfill_padded w n :
  list_ascii_of_string (Py.zfill w (Py.str n)) =
  padded (w - String.length (Py.str n)) (N.to_uint n).
Proof.
  unfold Py.zfill, padded.
  by rewrite list_ascii_of_string_app, list_ascii_of_string_of_list_ascii.
Qed.

Lemma length_list_ascii s : length (list_ascii_of_string s) = String.length s.
Proof. induction s; simpl; auto. Qed.

Lemma padded_length w n :
  (w <= length (padded (w - String.length (Py.str n)) (N.to_uint n)))%nat.
Proof.
  unfold padded. rewrite length_app, length_replicate, length_list_ascii.
  unfold Py.str. lia.
Qed.

Lemma uint_of_padded k d :
  NilEmpty.uint_of_string (string_of_list_ascii (padded k d)) =
  Some (Nat.iter k Decimal.D0 d).
Proof.
  unfold padded. induction k as [|k IH]; simpl.
  - rewrite string_of_list_ascii_of_string. apply NilEmpty.usu.
  - simpl in IH. rewrite IH. reflexivity.
Qed.

Lemma of_uint_iter_D0 k d : N.of_uint (Nat.iter k Decimal.D0 d) = N.of_uint d.
Proof. induction k; simpl; auto. Qed.

Lemma lstrip_digits cs :
  match cs with c :: _ => is_digit c = true | [] => True end ->
  Py.lstrip cs = cs.
Proof. destruct cs as [|c cs]; [done|]. simpl. intros H. by rewrite digit_not_space. Qed.

Lemma strip_digits cs :
  Forall (fun c => is_digit c = true) cs -> Py.strip cs = cs.
Proof.
  intros H. unfold Py.strip.
  rewrite (lstrip_digits cs) by (destruct H; auto).
  rewrite lstrip_digits; [apply rev_involutive|].
  apply Forall_rev in H. destruct H; auto.
Qed.

Lemma underscores_ok_digits cs :
  Forall (fun c => is_digit c = true) cs -> Py.underscores_ok true cs = true.
Proof.
  induction 1 as [|c cs Hc _ IH]; simpl; [done|].
  by rewrite (digit_not c "_"%char).
Qed.

Lemma filter_digits cs :
  Forall (fun c => is_digit c = true) cs ->
  List.filter (fun c => negb (Ascii.eqb c "_")) cs = cs.
Proof.
  induction 1 as [|c cs Hc _ IH]; simpl; [done|].
  rewrite (digit_not c "_"%char) by done. simpl. by rewrite IH.
Qed.

Lemma int_digits cs :
  Forall (fun c => is_digit c = true) cs -> (0 < length cs)%nat ->
  Py.int (string_of_list_ascii cs) =
  (fun d => Z.of_N (N.of_uint d)) <$>
    NilEmpty.uint_of_string (string_of_list_ascii cs).
Proof.
  intros Hd Hlen. unfold Py.int.
  rewrite list_ascii_of_string_of_list_ascii, strip_digits by done.
  destruct Hd as [|c cs Hc Hcs]; [simpl in Hlen; lia|].
  rewrite (digit_not c "-"%char), (digit_not c "+"%char) by done.
  cbn [orb tl Py.underscores_ok].
  rewrite (digit_not c "_"%char) by done.
  rewrite underscores_ok_digits by done.
  rewrite (filter_digits (c :: cs)) by (by constructor).
  by destruct (NilEmpty.uint_of_string _).
Qed.

Lemma int_padded k d :
  (0 < length (padded k d))%nat ->
  Py.int (string_of_list_ascii (padded k d)) = Some (Z.of_N (N.of_uint d)).
Proof.
  intros Hlen. rewrite int_digits by (done || apply padded_digits).
  rewrite uint_of_padded. simpl. by rewrite of_uint_iter_D0.
Qed.

Lemma int_zfill8 n : Py.int (Py.zfill 8 (Py.str n)) = Some (Z.of_N n).
Proof.
  rewrite <- (string_of_list_ascii_of_string (Py.zfill 8 (Py.str n))).
  rewrite zfill_padded, int_padded.
  - by rewrite DecimalN.Unsigned.of_to.
  - pose proof (padded_length 8 n). lia.
Qed.

Lemma rfind_dot_digits i cs :
  Forall (fun c => is_digit c = true) cs ->
  Py.rfind_dot i (cs ++ list_ascii_of_string ".png") = Some (i + length cs)%nat.
Proof.
  intros H. revert i. induction H as [|c cs Hc _ IH]; intros i; simpl.
  - f_equal. lia.
  - rewrite IH. f_equal. lia.
Qed.

Lemma splitext_stem_digits cs :
  Forall (fun c => is_digit c = true) cs -> (0 < length cs)%nat ->
  Py.splitext_stem (string_of_list_ascii cs ++ ".png")%string =
  string_of_list_ascii cs.
Proof.
  intros H Hlen. unfold Py.splitext_stem.
  rewrite list_ascii_of_string_app, list_ascii_of_string_of_list_ascii.
  rewrite (rfind_dot_digits 0 cs H). simpl.
  rewrite firstn_app, Nat.sub_diag, firstn_all. simpl. rewrite app_nil_r.
  destruct H as [|c cs Hc Hcs]; [simpl in Hlen; lia|].
  simpl. by rewrite (digit_not c "."%char).
Qed.

Lemma stem_key_zfill8 n :
  stem_key (Py.zfill 8 (Py.str n) ++ ".png") = Some (Z.of_N n).
Proof.
  unfold stem_key.
  rewrite <- (string_of_list_ascii_of_string (Py.zfill 8 (Py.str n))) at 1.
  rewrite zfill_padded, splitext_stem_digits.
  - rewrite <- zfill_padded, string_of_list_ascii_of_string. apply int_zfill8.
  - apply padded_digits.
  - pose proof (padded_length 8 n). lia.
Qed.

Lemma stem_key_frame_name i : (0 <= i)%Z -> stem_key (frame_name i) = Some i.
Proof.
  intros Hi. unfold frame_name. rewrite stem_key_zfill8. f_equal. lia.
Qed.

Lemma frame_name_inj i j :
  (0 <= i)%Z -> (0 <= j)%Z -> frame_name i = frame_name j -> i = j.
Proof.
  intros Hi Hj E. apply (f_equal stem_key) in E.
  rewrite !stem_key_frame_name in E by done. congruence.
Qed.

End PyFacts.

Section SortedFacts.
Context {A : Type} (le : A -> A -> bool).

Lemma insert_sorted_perm x l : Permutation (x :: l) (Py.insert_sorted le x l).
Proof.
  induction l as [|y l IH]; simpl; [done|].
  destruct (le x y); [done|].
  rewrite perm_swap. by constructor.
Qed.

Lemma sorted_perm l : Permutation l (Py.sorted le l).
Proof.
  induction l as [|x l IH]; simpl; [done|].
  rewrite <- insert_sorted_perm. by constructor.
Qed.

Lemma sorted_length l : length (Py.sorted le l) = length l.
Proof. symmetry. apply Permutation_length, sorted_perm. Qed.

Hypothesis le_total : forall a b, le a b = true \/ le b a = true.

Lemma insert_sorted_Sorted x l :
  Sorted (fun a b => le a b = true) l ->
  Sorted (fun a b => le a b = true) (Py.insert_sorted le x l).
Proof.
  induction 1 as [|y l Hl IH Hy]; simpl; [repeat constructor|].
  destruct (le x y) eqn:E.
  - repeat constructor; auto.
  - constructor; [done|].
    destruct l as [|z l]; simpl.
    + constructor. destruct (le_total x y); congruence.
    + destruct (le x z); constructor.
      * destruct (le_total x y); congruence.
      * by inversion Hy.
Qed.

Lemma sorted_Sorted l : Sorted (fun a b => le a b = true) (Py.sorted le l).
Proof.
  induction l as [|x l IH]; simpl; [constructor|].
  by apply insert_sorted_Sorted.
Qed.
End SortedFacts.

Lemma sorted_by_key_Sorted {A} (key : A -> Z) l :
  Sorted (fun a b => (key a <= key b)%Z) (Py.sorted_by_key key l).
Proof.
  unfold Py.sorted_by_key.
  eapply Sorted_ind with (P := fun l => Sorted (fun a b => (key a <= key b)%Z) l);
    [constructor| |apply sorted_Sorted; intros a b; rewrite !Z.leb_le; lia].
  intros a l' _ IH Hd. constructor; [done|].
  destruct Hd; constructor. by apply Z.leb_le.
Qed.

(** ** Directory entries and frame names *)

Lemma alist_write_fresh_eq {V} name (v : V) l :
  name ∉ map fst l -> alist_write name v l = l ++ [(name, v)].
Proof.
  induction l as [|[n w] l IH]; simpl; intros Hn; [done|].
  apply not_elem_of_cons in Hn as [Hne Hn].
  destruct (String.eqb_spec n name) as [->|_]; [done|].
  by rewrite IH.
Qed.

Lemma alist_write_names {V} name (v : V) l :
  name ∈ map fst (alist_write name v l).
Proof.
  induction l as [|[n w] l IH]; simpl; [by constructor|].
  destruct (String.eqb_spec n name) as [->|_]; simpl; by constructor.
Qed.

Lemma alist_write_length {V} name (v : V) l :
  (length l <= length (alist_write name v l) <= S (length l))%nat.
Proof.
  induction l as [|[n w] l IH]; simpl; [lia|].
  destruct (String.eqb n name); simpl; lia.
Qed.

Lemma alist_write_fresh {V} name (v : V) l :
  name ∉ map fst l -> map fst (alist_write name v l) = map fst l ++ [name].
Proof.
  induction l as [|[n w] l IH]; simpl; intros Hn; [done|].
  apply not_elem_of_cons in Hn as [Hne Hn].
  destruct (String.eqb_spec n name) as [->|_]; [done|].
  simpl. by rewrite IH.
Qed.

Lemma frame_name_fresh i : (0 <= i)%Z -> frame_name i ∉ frame_name <$> seqZ 0 i.
Proof.
  intros Hi (j & E & Hj)%list_elem_of_fmap.
  apply elem_of_seqZ in Hj.
  apply frame_name_inj in E; lia.
Qed.

Lemma seqZ_snoc i : (0 <= i)%Z -> seqZ 0 (i + 1) = seqZ 0 i ++ [i].
Proof. intros Hi. by rewrite seqZ_app by lia. Qed.


(** * Reasoning about the monad *)

Section MonadFacts.
Context `{Models}.

Lemma bind_ok_inv {A B} (c : M A) (k : A -> M B) s s' b :
  bind c k s = (s', Ok b) ->
  exists s1 a, c s = (s1, Ok a) /\ k a s1 = (s', Ok b).
Proof.
  unfold bind. destruct (c s) as [s1 [a|e]]; [eauto|done].
Qed.

Lemma bind_fst {A B} (c : M A) (k : A -> M B) s :
  fst (bind c k s) =
  match c s with
  | (s1, Ok a) => fst (k a s1)
  | (s1, Raise _) => s1
  end.
Proof. unfold bind. by destruct (c s) as [s1 [a|e]]. Qed.

#[global] Instance same_self_preorder : PreOrder same_self.
Proof. split; unfold same_self; [done|intros x y z; congruence]. Qed.

#[global] Instance same_info_preorder : PreOrder same_info.
Proof. split; unfold same_info; [done|intros x y z; congruence]. Qed.

#[global] Instance same_workdir_preorder : PreOrder same_workdir.
Proof. split; unfold same_workdir; [done|intros x y z; congruence]. Qed.

#[global] Instance dir_le_preorder : PreOrder dir_le.
Proof.
  split; unfold dir_le.
  - intros d. tauto.
  - intros x y z (E1&?&?&?&?&?) (E2&?&?&?&?&?). rewrite E2, E1. tauto.
Qed.

#[global] Instance grows_preorder : PreOrder grows.
Proof.
  split; unfold grows.
  - intros s. split; [exists []; by rewrite app_nil_r|eauto].
    intros d Hd. exists d. split; [done|reflexivity].
  - intros x y z [[l1 E1] H1] [[l2 E2] H2]. split.
    + exists (l1 ++ l2). by rewrite E2, E1, app_assoc.
    + intros d Hd. destruct (H1 d Hd) as (d1 & Hd1 & Hle1).
      destruct (H2 d1 Hd1) as (d2 & Hd2 & Hle2).
      exists d2. split; [done|by etrans].
Qed.

Section Respects.
Context (R : State -> State -> Prop) `{!PreOrder R}.

Lemma respects_ret {A} (a : A) : respects R (ret a).
Proof. intros s. reflexivity. Qed.

Lemma respects_raise {A} e : respects R (raise (A := A) e).
Proof. intros s. reflexivity. Qed.

Lemma respects_bind {A B} (c : M A) (k : A -> M B) :
  respects R c -> (forall a, respects R (k a)) -> respects R (bind c k).
Proof.
  intros Hc Hk s. rewrite bind_fst. specialize (Hc s).
  destruct (c s) as [s1 [a|e]]; [|done].
  etrans; [exact Hc|apply Hk].
Qed.

Lemma respects_get_self : respects R get_self.
Proof. intros s. reflexivity. Qed.

Lemma respects_get_workdir : respects R get_workdir.
Proof. intros s. reflexivity. Qed.

Lemma respects_if {A} (b : bool) (c1 c2 : M A) :
  respects R c1 -> respects R c2 -> respects R (if b then c1 else c2).
Proof. by destruct b. Qed.

End Respects.

End MonadFacts.

Create HintDb respects discriminated.

#[global] Hint Resolve respects_ret respects_raise respects_get_self
  respects_get_workdir : respects.

(** Walks a monadic term: binds, branches, and the leaves known to the
    hint database. *)
Ltac respects_step :=
  first
    [ solve [eauto with respects typeclass_instances]
    | apply respects_bind; [typeclasses eauto| |intros ?]
    | match goal with
      | |- respects _ (match ?x with _ => _ end) => destruct x
      | |- respects _ (if ?x then _ else _) => destruct x
      end ].
Ltac respects_auto := repeat respects_step.

Section Leaves.
Context `{Models}.

(** *** Leaves that leave the object alone *)

Lemma emit_same_self e : respects same_self (emit e).
Proof. by intros [a w l]. Qed.

Lemma set_workdir_same_self d : respects same_self (set_workdir d).
Proof. by intros [a w l]. Qed.

(** *** Leaves that leave the working directory alone *)

Lemma emit_same_workdir e : respects same_workdir (emit e).
Proof. by intros [a w l]. Qed.

Lemma set_self_same_workdir a : respects same_workdir (set_self a).
Proof. by intros [a' w l]. Qed.

(** *** Leaves under which the log and the directory grow *)

Lemma emit_grows e : respects grows (emit e).
Proof.
  intros [a w l]. split; simpl; [by exists [e]|].
  simpl. intros d ->. exists d. split; [done|reflexivity].
Qed.

Lemma set_self_grows a : respects grows (set_self a).
Proof.
  intros [a' w l]. split; simpl; [exists []; by rewrite app_nil_r|].
  simpl. intros d ->. exists d. split; [done|reflexivity].
Qed.

Lemma set_workdir_grows d' :
  (forall d, dir_le d d') -> respects grows (set_workdir (Some d')).
Proof.
  intros Hd [a w l]. split; simpl; [exists []; by rewrite app_nil_r|].
  intros d _. eauto.
Qed.

End Leaves.

#[global] Hint Resolve emit_same_self set_workdir_same_self
  emit_same_workdir set_self_same_workdir emit_grows set_self_grows
  : respects.

Section Composites.
Context `{Models}.

Lemma call_respects (R : State -> State -> Prop) `{!PreOrder R} {A}
    c who (r : option A) :
  respects R (emit (EvCall c)) -> respects R (call c who r).
Proof. intros He. unfold call. respects_auto. Qed.

End Composites.

Section MoreLeaves.
Context `{Models}.

Lemma grows_intro (s s' : State) l :
  log s' = log s ++ l ->
  (forall d, workdir s = Some d ->
     exists d', workdir s' = Some d' /\ dir_le d d') ->
  grows s s'.
Proof. intros E Hd. split; [by exists l|done]. Qed.

Lemma dir_le_set_image_dir p files d :
  dir_le d (set_image_dir p (Some files) d).
Proof. destruct p; unfold dir_le; simpl; repeat split; eauto. Qed.

Lemma dir_le_set_coords_pkl v d : dir_le d (set_coords_pkl (Some v) d).
Proof. unfold dir_le; simpl; repeat split; eauto. Qed.

Lemma dir_le_set_mask_coords_pkl v d :
  dir_le d (set_mask_coords_pkl (Some v) d).
Proof. unfold dir_le; simpl; repeat split; eauto. Qed.

Lemma dir_le_set_latents_pt v d : dir_le d (set_latents_pt (Some v) d).
Proof. unfold dir_le; simpl; repeat split; eauto. Qed.

(** *** [dump_file], [load_file], [imwrite], [glob_imgs] *)

Lemma dump_file_same_self p what write :
  respects same_self (dump_file p what write).
Proof. intros [a [d|] l]; done. Qed.

Lemma dump_file_grows p what write :
  (forall d, dir_le d (write d)) -> respects grows (dump_file p what write).
Proof.
  intros Hw [a [d|] l]; unfold dump_file, bind; simpl.
  - apply (grows_intro _ _ [EvDump p]); [done|].
    simpl; intros d' [= <-]. eauto.
  - reflexivity.
Qed.

Lemma load_file_same_self {A} p what (read : AvatarDir -> option A) :
  respects same_self (load_file p what read).
Proof.
  intros [a w l]. unfold load_file, bind; simpl. by destruct (w ≫= read).
Qed.

Lemma load_file_same_workdir {A} p what (read : AvatarDir -> option A) :
  respects same_workdir (load_file p what read).
Proof.
  intros [a w l]. unfold load_file, bind; simpl. by destruct (w ≫= read).
Qed.

Lemma load_file_grows {A} p what (read : AvatarDir -> option A) :
  respects grows (load_file p what read).
Proof.
  intros [a w l]. unfold load_file, bind; simpl.
  destruct (w ≫= read); simpl;
    (apply (grows_intro _ _ [EvLoad p]); [done|];
     simpl; intros d ->; exists d; split; [done|reflexivity]).
Qed.

Lemma imwrite_same_self p name img : respects same_self (imwrite p name img).
Proof.
  intros [a [d|] l]; unfold imwrite, bind; simpl; [|done].
  by destruct (image_dir p d).
Qed.

Lemma imwrite_grows p name img : respects grows (imwrite p name img).
Proof.
  intros [a [d|] l]; unfold imwrite, bind; simpl.
  - destruct (image_dir p d); simpl;
      (apply (grows_intro _ _ [EvImwrite p name]); [done|]);
      simpl; intros d' [= <-]; eexists; (split; [done|]);
      [apply dir_le_set_image_dir|reflexivity].
  - apply (grows_intro _ _ [EvImwrite p name]); [done|]. done.
Qed.

Lemma glob_imgs_same_self p : respects same_self (glob_imgs p).
Proof. by intros [a w l]. Qed.

Lemma glob_imgs_same_workdir p : respects same_workdir (glob_imgs p).
Proof. by intros [a w l]. Qed.

Lemma glob_imgs_grows p : respects grows (glob_imgs p).
Proof.
  intros [a w l]. apply (grows_intro _ _ [EvGlob p]); [done|].
  simpl. intros d ->. exists d. split; [done|reflexivity].
Qed.

Lemma same_self_same_info {A} (c : M A) :
  respects same_self c -> respects same_info c.
Proof. intros Hc s. unfold same_info. by rewrite (Hc s). Qed.

Lemma update_self_same_info f :
  (forall a, avatar_info (f a) = avatar_info a) ->
  respects same_info (update_self f).
Proof. intros Hf [a w l]. apply Hf. Qed.

Lemma update_self_same_workdir f : respects same_workdir (update_self f).
Proof. by intros [a w l]. Qed.

Lemma update_self_grows f : respects grows (update_self f).
Proof.
  intros [a w l]. apply (grows_intro _ _ []); [by rewrite app_nil_r|].
  simpl. intros d ->. exists d. split; [done|reflexivity].
Qed.

End MoreLeaves.

#[global] Hint Resolve dump_file_same_self load_file_same_self
  load_file_same_workdir load_file_grows imwrite_same_self imwrite_grows
  glob_imgs_same_self glob_imgs_same_workdir glob_imgs_grows
  update_self_same_workdir update_self_grows
  dir_le_set_image_dir dir_le_set_coords_pkl dir_le_set_mask_coords_pkl
  dir_le_set_latents_pt : respects.

#[global] Hint Extern 1 (respects _ (call _ _ _)) =>
  apply call_respects; [typeclasses eauto|] : respects.
#[global] Hint Extern 1 (respects grows (dump_file _ _ _)) =>
  apply dump_file_grows; intros ? : respects.

Section Loops.
Context `{Models}.

Lemma read_imgs_same_self p l : respects same_self (read_imgs p l).
Proof. induction l as [|[name img] l IH]; simpl; respects_auto. Qed.

Lemma read_imgs_same_workdir p l : respects same_workdir (read_imgs p l).
Proof. induction l as [|[name img] l IH]; simpl; respects_auto. Qed.

Lemma read_imgs_grows p l : respects grows (read_imgs p l).
Proof. induction l as [|[name img] l IH]; simpl; respects_auto. Qed.

Lemma video2imgs_loop_same_self p cut cap count :
  respects same_self (video2imgs_loop p cut cap count).
Proof.
  revert count. induction cap as [|f cap IH]; intros count; simpl;
    respects_auto.
Qed.

Lemma video2imgs_loop_grows p cut cap count :
  respects grows (video2imgs_loop p cut cap count).
Proof.
  revert count. induction cap as [|f cap IH]; intros count; simpl;
    respects_auto.
Qed.

Lemma copy_files_same_self files : respects same_self (copy_files files).
Proof.
  induction files as [|[name img] files IH]; simpl; respects_auto.
Qed.

Lemma copy_files_grows files : respects grows (copy_files files).
Proof.
  induction files as [|[name img] files IH]; simpl; [respects_auto|].
  intros [a [d|] l]; unfold bind at 1 2; simpl.
  - destruct (full_imgs d) as [entries|] eqn:E; unfold bind; simpl.
    + etrans; [|apply IH]. simpl.
      apply (grows_intro _ _ [EvCopyfile name]); [done|].
      simpl; intros d' [= <-]. eexists. split; [done|].
      apply (dir_le_set_image_dir full_imgs_path).
    + apply (grows_intro _ _ [EvCopyfile name]); [done|].
      simpl; intros d' [= <-]. eexists. split; [done|reflexivity].
  - apply (grows_intro _ _ [EvCopyfile name]); [done|]. done.
Qed.

Lemma encode_latents_same_self pairs acc :
  respects same_self (encode_latents pairs acc).
Proof.
  revert acc. induction pairs as [|[bbox frame] pairs IH]; intros acc; simpl;
    respects_auto.
Qed.

Lemma encode_latents_grows pairs acc :
  respects grows (encode_latents pairs acc).
Proof.
  revert acc. induction pairs as [|[bbox frame] pairs IH]; intros acc; simpl;
    respects_auto.
Qed.

Lemma build_masks_same_info i frames :
  respects same_info (build_masks i frames).
Proof.
  revert i. induction frames as [|frame frames IH]; intros i; simpl;
    [respects_auto|].
  apply respects_bind; [typeclasses eauto| |intros ?].
  { apply same_self_same_info, imwrite_same_self. }
  apply respects_bind; [typeclasses eauto|respects_auto|intros av].
  destruct (coord_list_cycle av !! i); [|respects_auto].
  apply respects_bind; [typeclasses eauto| |intros [m crop_box]].
  { apply same_self_same_info, call_respects; [typeclasses eauto|].
    apply emit_same_self. }
  apply respects_bind; [typeclasses eauto| |intros ?].
  { apply same_self_same_info, imwrite_same_self. }
  apply respects_bind; [typeclasses eauto| |intros ?]; [|apply IH].
  by apply update_self_same_info.
Qed.

Lemma build_masks_grows i frames : respects grows (build_masks i frames).
Proof.
  revert i. induction frames as [|frame frames IH]; intros i; simpl;
    respects_auto.
Qed.

Lemma with_stem_keys_same_workdir l : respects same_workdir (with_stem_keys l).
Proof. induction l as [|e l IH]; simpl; respects_auto. Qed.

Lemma with_stem_keys_grows l : respects grows (with_stem_keys l).
Proof. induction l as [|e l IH]; simpl; respects_auto. Qed.

End Loops.

#[global] Hint Resolve read_imgs_same_self read_imgs_same_workdir
  read_imgs_grows video2imgs_loop_same_self video2imgs_loop_grows
  copy_files_same_self copy_files_grows encode_latents_same_self
  encode_latents_grows build_masks_grows with_stem_keys_same_workdir
  with_stem_keys_grows : respects.

Section Phases.
Context `{Models}.

Lemma materialize_frames_same_self src :
  respects same_self (materialize_frames src).
Proof. destruct src; unfold materialize_frames, video2imgs; respects_auto. Qed.

Lemma materialize_frames_grows src : respects grows (materialize_frames src).
Proof. destruct src; unfold materialize_frames, video2imgs; respects_auto. Qed.

Lemma sort_by_stem_same_workdir l : respects same_workdir (sort_by_stem l).
Proof. unfold sort_by_stem. respects_auto. Qed.

Lemma sort_by_stem_grows l : respects grows (sort_by_stem l).
Proof. unfold sort_by_stem. respects_auto. Qed.

Lemma load_materials_same_workdir : respects same_workdir load_materials.
Proof. unfold load_materials. respects_auto. Qed.

Lemma load_materials_grows : respects grows load_materials.
Proof. unfold load_materials. respects_auto. Qed.

End Phases.

#[global] Hint Resolve materialize_frames_same_self materialize_frames_grows
  sort_by_stem_same_workdir sort_by_stem_grows load_materials_same_workdir
  load_materials_grows : respects.

(** * Preparation: [video2imgs] and [prepare_material] *)

Section PrepareFacts.
Context `{Models}.

Lemma respects_run {A} (R : State -> State -> Prop) (c : M A) s s' r :
  respects R c -> c s = (s', r) -> R s s'.
Proof. intros Hc E. specialize (Hc s). by rewrite E in Hc. Qed.

Lemma call_ok {A} c who (r : option A) s s' a :
  call c who r s = (s', Ok a) ->
  r = Some a /\ self s' = self s /\ workdir s' = workdir s.
Proof.
  destruct s as [a0 w l]. unfold call, bind; simpl.
  destruct r; simpl; [|done]. by intros [= <- <-].
Qed.

Lemma encode_latents_ok pairs acc s s' l :
  encode_latents pairs acc s = (s', Ok l) ->
  exists new,
    l = acc ++ new /\
    length new
    = length (List.filter
                (fun p => negb (bbox_eqb (fst p) coord_placeholder)) pairs).
Proof.
  revert acc s.
  induction pairs as [|[bbox frame] pairs IH]; intros acc s E; simpl in *.
  - injection E as <- <-. exists []. by rewrite app_nil_r.
  - destruct (bbox_eqb bbox coord_placeholder); simpl; [by eapply IH|].
    apply bind_ok_inv in E as (s1 & resized & _ & E).
    apply bind_ok_inv in E as (s2 & latents & _ & E).
    apply IH in E as (new & -> & Hlen).
    exists (latents :: new). rewrite <- app_assoc. simpl. auto.
Qed.

Lemma build_masks_ok i frames s s' :
  build_masks i frames s = (s', Ok tt) ->
  frame_list_cycle (self s') = frame_list_cycle (self s) /\
  coord_list_cycle (self s') = coord_list_cycle (self s) /\
  input_latent_list_cycle (self s') = input_latent_list_cycle (self s) /\
  length (mask_list_cycle (self s'))
  = (length (mask_list_cycle (self s)) + length frames)%nat /\
  length (mask_coords_list_cycle (self s'))
  = (length (mask_coords_list_cycle (self s)) + length frames)%nat /\
  (frames <> [] ->
   (i + length frames <= length (coord_list_cycle (self s)))%nat).
Proof.
  revert i s. induction frames as [|frame frames IH]; intros i s E; simpl in *.
  - injection E as <-. repeat split; try lia. done.
  - apply bind_ok_inv in E as (s1 & [] & E1 & E).
    apply (respects_run same_self) in E1; [|apply imwrite_same_self].
    unfold bind at 1 in E. simpl in E.
    destruct (coord_list_cycle (self s1) !! i) as [face_box|] eqn:Eb; [|done].
    apply bind_ok_inv in E as (s2 & [m crop_box] & E2 & E).
    apply call_ok in E2 as (_ & Hs2 & _).
    apply bind_ok_inv in E as (s3 & [] & E3 & E).
    apply (respects_run same_self) in E3; [|apply imwrite_same_self].
    unfold bind at 1, update_self, bind at 1 in E. simpl in E.
    apply IH in E as (Hf & Hc & Hl & Hm & Hmc & Hi). simpl in *.
    unfold same_self in *. rewrite E3, Hs2, E1 in *.
    rewrite Hf, Hc, Hl, Hm, Hmc, !length_app. simpl.
    apply lookup_lt_Some in Eb.
    repeat split; try lia.
    intros _. destruct frames as [|f frames']; simpl in *; [lia|].
    specialize (Hi ltac:(done)). lia.
Qed.

Lemma mirrored_app_reverse {A} (h : list A) : mirrored (h ++ reverse h).
Proof.
  intros i Hi.
  assert (reverse (h ++ reverse h) = h ++ reverse h) as Hrev
    by (by rewrite reverse_app, reverse_involutive).
  rewrite <- Hrev at 1. rewrite reverse_lookup by done.
  f_equal. lia.
Qed.

Lemma length_app_reverse {A} (h : list A) :
  length (h ++ reverse h) = (2 * length h)%nat.
Proof. rewrite length_app, length_reverse. lia. Qed.

Lemma length_valid_pairs_le coord_list frame_list :
  (length (valid_pairs coord_list frame_list) <= length frame_list)%nat.
Proof.
  unfold valid_pairs. etrans; [apply List.filter_length_le|].
  rewrite length_zip_with. lia.
Qed.

End PrepareFacts.

Section PrepareMaterial.
Context `{Models}.

Lemma dump_file_ok p what write s s' :
  dump_file p what write s = (s', Ok tt) ->
  exists d,
    workdir s = Some d /\
    s' = mkState (self s) (Some (write d)) (log s ++ [EvDump p]).
Proof.
  destruct s as [a [d|] l]; unfold dump_file, bind; simpl; [|done].
  intros [= <-]. eauto.
Qed.

Lemma glob_imgs_eq p s :
  glob_imgs p s
  = (mkState (self s) (workdir s) (log s ++ [EvGlob p]),
     Ok (List.filter (fun e => Py.glob_img_match (fst e))
           (default [] (workdir s ≫= image_dir p)))).
Proof. by destruct s as [a w l]. Qed.

Lemma set_cycles_info frames coords latents a :
  avatar_info (set_cycles frames coords latents a) = avatar_info a.
Proof. done. Qed.

(** What a preparation that returns has done. *)
Lemma prepare_material_ok src s s' :
  prepare_material src s = (s', Ok tt) ->
  exists d d' coord_list frame_list input_latent_list,
    workdir s = Some d /\ workdir s' = Some d' /\
    landmark_pass src s = Some (coord_list, frame_list) /\
    frame_list_cycle (self s') = frame_list ++ reverse frame_list /\
    coord_list_cycle (self s') = coord_list ++ reverse coord_list /\
    input_latent_list_cycle (self s')
    = input_latent_list ++ reverse input_latent_list /\
    length input_latent_list
    = length (valid_pairs coord_list frame_list) /\
    length (mask_list_cycle (self s')) = (2 * length frame_list)%nat /\
    length (mask_coords_list_cycle (self s')) = (2 * length frame_list)%nat /\
    (length frame_list <= length coord_list)%nat /\
    avatar_info (self s') = avatar_info (self s) /\
    avator_info_json d' = Some (avatar_info (self s)) /\
    (is_Some (full_imgs d) -> is_Some (full_imgs d')) /\
    (is_Some (mask d) -> is_Some (mask d')) /\
    coords_pkl d' = Some (coord_list_cycle (self s')) /\
    mask_coords_pkl d' = Some (mask_coords_list_cycle (self s')) /\
    latents_pt d' = Some (input_latent_list_cycle (self s')).
Proof.
  intros E. unfold prepare_material in E.
  unfold bind at 1 in E. simpl in E.
  apply bind_ok_inv in E as (s1 & [] & E1 & E).
  apply bind_ok_inv in E as (s2 & [] & E2 & E).
  assert (landmark_pass src s
          = get_landmark_and_bbox
              (sort_entries
                 (List.filter (fun e => Py.glob_img_match (fst e))
                    (default [] (workdir s2 ≫= image_dir full_imgs_path))))
              (bbox_shift (self s))) as Hpass.
  { unfold landmark_pass. by rewrite bind_fst, E1, E2. }
  pose proof (respects_run grows _ _ _ _ (materialize_frames_grows src) E2)
    as G2.
  apply (respects_run same_self) in E2 as S2;
    [|apply materialize_frames_same_self].
  apply dump_file_ok in E1 as (d & Hd & ->).
  unfold bind at 1 in E. rewrite glob_imgs_eq in E.
  apply bind_ok_inv in E as (s3 & [] & E3 & E).
  pose proof (respects_run grows _ _ _ _ (emit_grows _) E3) as G3.
  apply (respects_run same_self) in E3 as S3; [|apply emit_same_self].
  apply bind_ok_inv in E as (s4 & [coord_list frame_list] & E4 & E).
  assert (respects grows
            (call GetLandmarkAndBbox "get_landmark_and_bbox"
               (get_landmark_and_bbox
                  (sort_entries
                     (List.filter (fun e => Py.glob_img_match (fst e))
                        (default [] (workdir s2 ≫= image_dir full_imgs_path))))
                  (bbox_shift (self s))))) as G4 by respects_auto.
  apply (respects_run grows _ _ _ _ G4) in E4 as G4'. clear G4.
  apply call_ok in E4 as (Hland & S4 & _).
  apply bind_ok_inv in E as (s5 & input_latent_list & E5 & E).
  pose proof (respects_run grows _ _ _ _ (encode_latents_grows _ _) E5) as G5.
  apply (respects_run same_self) in E5 as S5;
    [|apply encode_latents_same_self].
  apply encode_latents_ok in E5 as (new & -> & Hnew). simpl in Hnew.
  unfold bind at 1, update_self, bind at 1 in E. simpl in E.
  apply bind_ok_inv in E as (s6 & [] & E6 & E).
  pose proof (respects_run same_info _ _ _ _ (build_masks_same_info _ _) E6)
    as I6.
  pose proof (respects_run grows _ _ _ _ (build_masks_grows _ _) E6) as G6.
  apply build_masks_ok in E6 as (Hf & Hc & Hl & Hm & Hmc & Hi).
  simpl in Hf, Hc, Hl, Hm, Hmc, Hi.
  unfold bind at 1 in E. simpl in E.
  apply bind_ok_inv in E as (s7 & [] & E7 & E).
  apply dump_file_ok in E7 as (d6 & Hd6 & ->).
  unfold bind at 1 in E. simpl in E.
  apply bind_ok_inv in E as (s8 & [] & E8 & E).
  apply dump_file_ok in E8 as (d7 & Hd7 & ->). simpl in Hd7.
  unfold bind at 1 in E. simpl in E.
  apply dump_file_ok in E as (d8 & Hd8 & ->). simpl in Hd8.
  injection Hd7 as <-. injection Hd8 as <-.
  (* the directory between the manifest and the final dumps *)
  assert (grows
            (mkState (self s)
               (Some (set_avator_info_json (Some (avatar_info (self s))) d))
               (log s ++ [EvDump avatar_info_path])) s6) as G.
  { etrans; [exact G2|]. etrans; [|exact G6].
    etrans; [|apply (update_self_grows _ s5)].
    etrans; [|exact G5]. etrans; [|exact G4']. etrans; [|exact G3].
    apply (grows_intro _ _ [EvGlob full_imgs_path]); [done|].
    simpl. intros d0 ->. exists d0. split; [done|reflexivity]. }
  destruct G as [_ G]. destruct (G _ eq_refl) as (d6' & Hd6' & Hle).
  rewrite Hd6 in Hd6'. injection Hd6' as <-.
  destruct Hle as (Hman & Hfull & Hmask & _).
  unfold same_self in *. simpl in S2.
  rewrite S5, S4, S3, S2 in *.
  rewrite <- Hpass in Hland.
  exists d, (set_latents_pt (Some (input_latent_list_cycle (self s6)))
               (set_coords_pkl (Some (coord_list_cycle (self s6)))
                  (set_mask_coords_pkl
                     (Some (mask_coords_list_cycle (self s6))) d6))),
    coord_list, frame_list, new.
  simpl. rewrite Hf, Hc, Hl, Hm, Hmc, Hman, !length_app_reverse.
  repeat split; try done.
  - destruct frame_list as [|f fl]; [simpl; lia|].
    rewrite !length_app_reverse in Hi.
    specialize (Hi ltac:(done)). lia.
Qed.

End PrepareMaterial.

Section PrepareTheorems.
Context `{Models}.

Lemma filter_all_length {A} (P : A -> bool) (l : list A) :
  length (List.filter P l) = length l <-> Forall (fun x => P x = true) l.
Proof.
  induction l as [|x l IH]; simpl; [by split; [constructor|]|].
  destruct (P x) eqn:E; simpl.
  - rewrite Forall_cons. split.
    + intros [= Hl]. split; [done|by apply IH].
    + intros [_ Hl]. f_equal. by apply IH.
  - split.
    + intros Hl. pose proof (List.filter_length_le P l). lia.
    + intros Hl. apply Forall_cons in Hl as [Hx _]. congruence.
Qed.

Lemma valid_pairs_all coord_list frame_list :
  length coord_list = length frame_list ->
  length (valid_pairs coord_list frame_list) = length frame_list <->
  coord_placeholder ∉ coord_list.
Proof.
  intros Hlen. unfold valid_pairs.
  assert (length frame_list = length (zip coord_list frame_list)) as ->
    by (rewrite length_zip_with; lia).
  rewrite filter_all_length.
  rewrite <- (fst_zip coord_list frame_list) at 2 by lia.
  rewrite list_elem_of_fmap, Forall_forall. split.
  - intros Hall (p & Hp & Hin). apply Hall in Hin.
    unfold bbox_eqb in Hin. rewrite <- Hp in Hin.
    by rewrite bool_decide_eq_true_2 in Hin.
  - intros Hno p Hin.
    unfold bbox_eqb. apply negb_true_iff, bool_decide_eq_false.
    intros Hp. apply Hno. by exists p.
Qed.

End PrepareTheorems.

(** C3 (as stated, refuted): a three-frame video whose middle frame shows
    no face.  Two frames have a box, so the claim asks for five lists of
    length 4 without the placeholder; the frame cycle has length 6. *)
Lemma C3_placeholder_frames_stay_in_cycle :
  ~ @cycles_exclude_placeholder Demo.models Demo.video3_noface (Demo.made 0).
Proof.
  intros Hc.
  pose (res := @prepare_material Demo.models Demo.video3_noface (Demo.made 0)).
  assert (res = (fst res, Ok tt)) as Hres by (vm_compute; reflexivity).
  destruct (Hc (fst res)
              [(0, 0, 10, 10); (0, 0, 0, 0); (0, 0, 10, 10)]%Z
              [1; -2; 3]%Z Hres) as [[Hlen _] _].
  - vm_compute. reflexivity.
  - vm_compute in Hlen. discriminate.
Qed.

(** C3 (amended): after a preparation whose landmark pass returned [M]
    frames with one box each, [N] of the boxes not the placeholder: the
    frame, box, mask and mask-box cycles have length [2 * M] and the
    latent cycle has length [2 * N], with [N <= M].  A frame with the
    placeholder box is passed over for the latents only: it stays, with
    its box, in the frame and box cycles.  The five lengths are all
    [2 * N] exactly when no box is the placeholder. *)
Theorem C3_cycle_lengths `{Models} (src : Source) (s s' : State)
    (coord_list : list BBox) (frame_list : list ndarray) :
  prepare_material src s = (s', Ok tt) ->
  landmark_pass src s = Some (coord_list, frame_list) ->
  length coord_list = length frame_list ->
  let M := length frame_list in
  let N := length (valid_pairs coord_list frame_list) in
  length (frame_list_cycle (self s')) = (2 * M)%nat /\
  length (coord_list_cycle (self s')) = (2 * M)%nat /\
  length (mask_list_cycle (self s')) = (2 * M)%nat /\
  length (mask_coords_list_cycle (self s')) = (2 * M)%nat /\
  length (input_latent_list_cycle (self s')) = (2 * N)%nat /\
  (N <= M)%nat /\
  (forall i, coord_list !! i = Some coord_placeholder ->
     coord_list_cycle (self s') !! i = Some coord_placeholder /\
     is_Some (frame_list !! i) /\
     frame_list_cycle (self s') !! i = frame_list !! i) /\
  (cycles_have_length (self s') (2 * N) <-> coord_placeholder ∉ coord_list).
Proof.
  intros Hprep Hpass Hlen M N.
  apply prepare_material_ok in Hprep
    as (d & d' & cl & fl & ll & _ & _ & Hpass' & Hf & Hc & Hl & Hll & Hm
        & Hmc & _).
  rewrite Hpass in Hpass'. injection Hpass' as <- <-.
  pose proof (length_valid_pairs_le coord_list frame_list) as HNM.
  fold N M in HNM, Hll.
  rewrite Hf, Hc, Hl, Hm, Hmc, !length_app_reverse, Hll, Hlen. fold M.
  pose proof (valid_pairs_all coord_list frame_list Hlen) as Hiff.
  fold N M in Hiff.
  split; [done|]. split; [done|]. split; [done|]. split; [done|].
  split; [done|]. split; [done|]. split.
  - intros i Hi. pose proof (lookup_lt_Some _ _ _ Hi) as Hlt.
    split; [by apply lookup_app_l_Some|].
    split; [apply lookup_lt_is_Some; lia|apply lookup_app_l; lia].
  - unfold cycles_have_length.
    rewrite Hf, Hc, Hl, Hm, Hmc, !length_app_reverse, Hll, Hlen. fold M.
    rewrite <- Hiff. split; [intros (E & _); lia|intros ->; done].
Qed.

Lemma C3_witness :
  let s' := fst (@prepare_material Demo.models Demo.video3_noface (Demo.made 0)) in
  length (frame_list_cycle (self s')) = 6%nat /\
  length (coord_list_cycle (self s')) = 6%nat /\
  length (mask_list_cycle (self s')) = 6%nat /\
  length (mask_coords_list_cycle (self s')) = 6%nat /\
  length (input_latent_list_cycle (self s')) = 4%nat.
Proof.
  intros s'.
  destruct (@C3_cycle_lengths Demo.models Demo.video3_noface (Demo.made 0) s'
              [(0, 0, 10, 10); (0, 0, 0, 0); (0, 0, 10, 10)]%Z [1; -2; 3]%Z)
    as (Hf & Hc & Hm & Hmc & Hl & _).
  - vm_compute. reflexivity.
  - vm_compute. reflexivity.
  - reflexivity.
  - repeat split; assumption.
Defined.

(** C7: the frame, box and latent cycles built by a preparation are each
    a first half followed by its reversal, so the element at position [i]
    is the element at position [L - 1 - i] for every [i < L]. *)
Theorem C7_cycles_are_mirrored `{Models} (src : Source) (s s' : State) :
  prepare_material src s = (s', Ok tt) ->
  (exists frame_list coord_list input_latent_list,
     frame_list_cycle (self s') = frame_list ++ reverse frame_list /\
     coord_list_cycle (self s') = coord_list ++ reverse coord_list /\
     input_latent_list_cycle (self s')
     = input_latent_list ++ reverse input_latent_list) /\
  mirrored (frame_list_cycle (self s')) /\
  mirrored (coord_list_cycle (self s')) /\
  mirrored (input_latent_list_cycle (self s')).
Proof.
  intros Hprep.
  apply prepare_material_ok in Hprep
    as (d & d' & cl & fl & ll & _ & _ & _ & Hf & Hc & Hl & _).
  rewrite Hf, Hc, Hl. split; [by exists fl, cl, ll|].
  repeat split; apply mirrored_app_reverse.
Qed.

Lemma C7_witness :
  let s' := fst (@prepare_material Demo.models Demo.video5 (Demo.made 0)) in
  mirrored (frame_list_cycle (self s')) /\
  mirrored (coord_list_cycle (self s')) /\
  mirrored (input_latent_list_cycle (self s')) /\
  frame_list_cycle (self s') = [1; 2; 3; 4; 5; 5; 4; 3; 2; 1]%Z.
Proof.
  intros s'.
  destruct (@C7_cycles_are_mirrored Demo.models Demo.video5 (Demo.made 0) s')
    as (_ & Hf & Hc & Hl).
  - vm_compute. reflexivity.
  - repeat split; assumption.
Defined.

Section Video2Imgs.
Context `{Models}.

Lemma fmt08_frame_name (count : N) :
  (Py.fmt08 count ++ ".png")%string = frame_name (Z.of_N count).
Proof. unfold frame_name, Py.fmt08. by rewrite N2Z.id. Qed.

(** The loop of [video2imgs] from frame number [count], into a directory
    that holds the frames before it: one new entry per frame that is
    read, numbered on from [count]. *)
Lemma video2imgs_loop_spec cut cap count a d l entries :
  full_imgs d = Some entries ->
  map fst entries = frame_name <$> seqZ 0 (Z.of_N count) ->
  (N.of_nat (length cap) + count <= cut + 1)%N ->
  exists l' d' new,
    video2imgs_loop full_imgs_path cut cap count (mkState a (Some d) l)
    = (mkState a (Some d') l', Ok tt) /\
    full_imgs d' = Some (entries ++ new) /\
    map fst new = frame_name <$> seqZ (Z.of_N count) (Z.of_nat (length cap)) /\
    map snd new = cap.
Proof.
  revert count d l entries.
  induction cap as [|f cap IH]; intros count d l entries Hd Hn Hcut.
  - exists (if (cut <? count)%N then l else l ++ [EvVideoRead]), d, [].
    simpl. rewrite app_nil_r. split; [|done].
    by destruct (cut <? count)%N.
  - simpl in Hcut. simpl.
    assert ((cut <? count)%N = false) as -> by (apply N.ltb_ge; lia).
    unfold bind at 1 2, imwrite, bind at 1 2. simpl. rewrite Hd. simpl.
    rewrite fmt08_frame_name.
    rewrite alist_write_fresh_eq
      by (rewrite Hn; apply frame_name_fresh; lia).
    destruct (IH (count + 1)%N
                (set_image_dir full_imgs_path
                   (Some (entries ++ [(frame_name (Z.of_N count), f)])) d)
                ((l ++ [EvVideoRead])
                 ++ [EvImwrite full_imgs_path (frame_name (Z.of_N count))])
                (entries ++ [(frame_name (Z.of_N count), f)]))
      as (l' & d' & new & E & Hd' & Hnew & Hsnd).
    + reflexivity.
    + rewrite map_app, Hn. simpl.
      replace (Z.of_N (count + 1)) with (Z.of_N count + 1)%Z by lia.
      rewrite seqZ_snoc by lia. by rewrite fmap_app.
    + lia.
    + exists l', d', ((frame_name (Z.of_N count), f) :: new).
      split; [exact E|]. rewrite Hd', <- app_assoc. split; [done|].
      cbn [map fst snd length]. rewrite Hnew, Hsnd. split; [|done].
      rewrite Nat2Z.inj_succ.
      rewrite (seqZ_cons (Z.of_N count)) by lia. cbn [fmap list_fmap].
      replace (Z.succ (Z.of_N count)) with (Z.of_N (count + 1)) by lia.
      by replace (Z.pred (Z.succ (Z.of_nat (length cap))))
        with (Z.of_nat (length cap)) by lia.
Qed.

Lemma splitext_stem_frame_name i :
  Py.splitext_stem (frame_name i) = Py.zfill 8 (Py.str (Z.to_N i)).
Proof.
  unfold frame_name.
  rewrite <- (string_of_list_ascii_of_string (Py.zfill 8 _)) at 1.
  rewrite zfill_padded, splitext_stem_digits.
  - by rewrite <- zfill_padded, string_of_list_ascii_of_string.
  - apply padded_digits.
  - pose proof (padded_length 8 (Z.to_N i)). lia.
Qed.

Lemma stem_frame_name_length i :
  (8 <= String.length (Py.splitext_stem (frame_name i)))%nat.
Proof.
  rewrite splitext_stem_frame_name, <- length_list_ascii, zfill_padded.
  apply padded_length.
Qed.

(** Whatever follows the manifest in [prepare_material] leaves it alone. *)
Lemma prepare_material_started src a d l :
  grows
    (mkState a (Some (set_avator_info_json (Some (avatar_info a)) d))
       (l ++ [EvDump avatar_info_path]))
    (fst (prepare_material src (mkState a (Some d) l))).
Proof.
  unfold prepare_material.
  rewrite bind_fst. simpl. rewrite bind_fst.
  unfold dump_file at 1, bind at 1 2. simpl.
  match goal with
  | |- grows ?s1 (fst (?c ?s1)) =>
      assert (respects grows c) as Hc; [|exact (Hc s1)]
  end.
  respects_auto.
Qed.

End Video2Imgs.



(** * [Avatar.init]: the rebuild decision and the loads *)

Section InitFacts.
Context `{Models}.

#[global] Instance only_reads_preorder : PreOrder only_reads.
Proof.
  split; unfold only_reads.
  - intros s. split; [done|]. exists []. by rewrite app_nil_r.
  - intros x y z [W1 (l1 & E1 & F1)] [W2 (l2 & E2 & F2)]. split; [congruence|].
    exists (l1 ++ l2). rewrite E2, E1, app_assoc. split; [done|].
    by apply Forall_app.
Qed.

Lemma only_reads_intro (s s' : State) l :
  workdir s' = workdir s -> log s' = log s ++ l ->
  Forall (fun e => is_read_event e = true) l -> only_reads s s'.
Proof. intros W E F. split; [done|]. by exists l. Qed.

Lemma load_file_only_reads {A} p what (read : AvatarDir -> option A) :
  respects only_reads (load_file p what read).
Proof.
  intros [a w l]. unfold load_file, bind; simpl.
  destruct (w ≫= read); simpl;
    by apply (only_reads_intro _ _ [EvLoad p]); [| |repeat constructor].
Qed.

Lemma glob_imgs_only_reads p : respects only_reads (glob_imgs p).
Proof.
  intros [a w l].
  by apply (only_reads_intro _ _ [EvGlob p]); [| |repeat constructor].
Qed.

Lemma update_self_only_reads f : respects only_reads (update_self f).
Proof.
  intros [a w l]. apply (only_reads_intro _ _ []); [done| |constructor].
  simpl. by rewrite app_nil_r.
Qed.

Lemma read_imgs_eq p l s :
  read_imgs p l s
  = (mkState (self s) (workdir s)
       (log s ++ map (fun e => EvImread p (fst e)) l),
     Ok (map snd l)).
Proof.
  revert s. induction l as [|[name img] l IH]; intros [a w lg]; simpl.
  - by rewrite app_nil_r.
  - unfold bind at 1 2. simpl. rewrite IH. simpl. by rewrite <- app_assoc.
Qed.

Lemma read_imgs_only_reads p l : respects only_reads (read_imgs p l).
Proof.
  intros s. rewrite read_imgs_eq. simpl.
  apply (only_reads_intro _ _ (map (fun e => EvImread p (fst e)) l));
    [done..|].
  by apply Forall_map, Forall_true.
Qed.

(** The keys are computed without an effect; each is the number of its
    entry's stem. *)
Lemma with_stem_keys_run l s :
  exists r, with_stem_keys l s = (s, r) /\
    forall keyed, r = Ok keyed ->
      map snd keyed = l /\
      Forall (fun ke => stem_key (fst (snd ke)) = Some (fst ke)) keyed.
Proof.
  induction l as [|e l (r & E & Hr)]; simpl.
  - eexists. split; [reflexivity|]. intros keyed [= <-]. by split.
  - destruct (stem_key (fst e)) as [k|] eqn:Ek.
    + unfold bind. rewrite E. destruct r as [keyed|err].
      * eexists. split; [reflexivity|]. intros keyed' [= <-].
        destruct (Hr keyed eq_refl) as [Hm Hf]. simpl. rewrite Hm.
        split; [done|]. by constructor.
      * eexists. split; [reflexivity|]. done.
    + eexists. split; [reflexivity|]. done.
Qed.

Lemma sort_by_stem_run l s :
  exists r, sort_by_stem l s = (s, r) /\
    forall sorted, r = Ok sorted ->
      Permutation l sorted /\ Sorted stem_le sorted.
Proof.
  unfold sort_by_stem, bind.
  destruct (with_stem_keys_run l s) as (r & -> & Hr).
  destruct r as [keyed|err]; [|eexists; split; [reflexivity|done]].
  eexists. split; [reflexivity|]. intros sorted [= <-].
  destruct (Hr keyed eq_refl) as [Hm Hf]. split.
  - rewrite <- Hm. apply Permutation_map, sorted_perm.
  - pose proof (sorted_by_key_Sorted fst keyed) as Hs.
    assert (Forall (fun ke => stem_key (fst (snd ke)) = Some (fst ke))
              (Py.sorted_by_key fst keyed)) as Hf'.
    { eapply Permutation_Forall; [|exact Hf]. apply sorted_perm. }
    clear Hf Hm Hr. induction Hs as [|ke rest Hs IH Hhd]; simpl; [constructor|].
    apply Forall_cons in Hf' as [Hke Hrest].
    constructor; [by apply IH|].
    destruct Hhd as [|ke' rest' Hle]; simpl; constructor.
    apply Forall_cons in Hrest as [Hke' _].
    by exists (fst ke), (fst ke').
Qed.

Lemma sort_by_stem_only_reads l : respects only_reads (sort_by_stem l).
Proof.
  intros s. destruct (sort_by_stem_run l s) as (r & -> & _). reflexivity.
Qed.

End InitFacts.

#[global] Hint Resolve load_file_only_reads glob_imgs_only_reads
  update_self_only_reads read_imgs_only_reads sort_by_stem_only_reads
  : respects.

Section InitLoads.
Context `{Models}.

Lemma load_materials_only_reads : respects only_reads load_materials.
Proof. unfold load_materials. respects_auto. Qed.

Lemma load_file_ok {A} p what (read : AvatarDir -> option A) s s' a :
  load_file p what read s = (s', Ok a) ->
  s' = mkState (self s) (workdir s) (log s ++ [EvLoad p]) /\
  workdir s ≫= read = Some a.
Proof.
  destruct s as [av w l]. unfold load_file, bind; simpl.
  destruct (w ≫= read); simpl; [|done]. by intros [= <- <-].
Qed.

(** What the loads of [init] have done when they return. *)
Lemma load_materials_ok s s' :
  load_materials s = (s', Ok tt) ->
  exists d latents coords mask_coords full_list mask_list,
    workdir s = Some d /\ workdir s' = Some d /\
    latents_pt d = Some latents /\
    coords_pkl d = Some coords /\
    mask_coords_pkl d = Some mask_coords /\
    numerically_sorted (full_imgs d) full_list /\
    numerically_sorted (mask d) mask_list /\
    log s' = log s ++ load_events full_list mask_list /\
    input_latent_list_cycle (self s') = latents /\
    coord_list_cycle (self s') = coords /\
    frame_list_cycle (self s') = map snd full_list /\
    mask_coords_list_cycle (self s') = mask_coords /\
    mask_list_cycle (self s') = map snd mask_list.
Proof.
  intros E. unfold load_materials in E.
  apply bind_ok_inv in E as (s1 & latents & E1 & E).
  apply load_file_ok in E1 as (-> & R1).
  unfold bind at 1, update_self, bind at 1 in E. simpl in E.
  apply bind_ok_inv in E as (s2 & coords & E2 & E).
  apply load_file_ok in E2 as (-> & R2). simpl in R2.
  unfold bind at 1, update_self, bind at 1 in E. simpl in E.
  unfold bind at 1 in E. rewrite glob_imgs_eq in E. simpl in E.
  apply bind_ok_inv in E as (s3 & full_list & E3 & E).
  match type of E3 with
  | sort_by_stem ?l ?st = _ =>
      destruct (sort_by_stem_run l st) as (r3 & E3' & H3)
  end.
  rewrite E3' in E3. injection E3 as <- ->.
  destruct (H3 _ eq_refl) as [P3 S3].
  unfold bind at 1 in E. rewrite read_imgs_eq in E. simpl in E.
  unfold bind at 1, update_self, bind at 1 in E. simpl in E.
  apply bind_ok_inv in E as (s4 & mask_coords & E4 & E).
  apply load_file_ok in E4 as (-> & R4). simpl in R4.
  unfold bind at 1, update_self, bind at 1 in E. simpl in E.
  unfold bind at 1 in E. rewrite glob_imgs_eq in E. simpl in E.
  apply bind_ok_inv in E as (s5 & mask_list & E5 & E).
  match type of E5 with
  | sort_by_stem ?l ?st = _ =>
      destruct (sort_by_stem_run l st) as (r5 & E5' & H5)
  end.
  rewrite E5' in E5. injection E5 as <- ->.
  destruct (H5 _ eq_refl) as [P5 S5].
  unfold bind at 1 in E. rewrite read_imgs_eq in E. simpl in E.
  unfold update_self, bind in E. simpl in E. injection E as <-.
  destruct (workdir s) as [d|] eqn:Ed; [|done]. simpl in *.
  exists d, latents, coords, mask_coords, full_list, mask_list.
  repeat split; try done.
  unfold load_events. by rewrite <- !app_assoc.
Qed.

End InitLoads.

Section InitDecision.
Context `{Models}.

Lemma decide_rebuild s :
  need_rebuild s ->
  exists l, decide_need_to_prepare s = (mkState (self s) None l, Ok true).
Proof.
  destruct s as [a w l]. unfold need_rebuild, decide_need_to_prepare. simpl.
  intros Hneed. unfold bind at 1 2, exists_avatar_path, bind at 1; simpl.
  destruct w as [d|]; simpl.
  - destruct (preparation_force a) eqn:Ef; simpl.
    + by eexists.
    + destruct Hneed as [?|[?|(d0 & stored & [= <-] & Hs & Hne)]]; [done..|].
      unfold bind at 1, load_file, bind at 1 2. simpl. rewrite Hs. simpl.
      rewrite bool_decide_eq_true_2 by done. by eexists.
  - rewrite andb_false_r. simpl. by eexists.
Qed.

Lemma decide_no_rebuild s :
  ~ need_rebuild s ->
  exists d,
    workdir s = Some d /\
    decide_need_to_prepare s
    = (mkState (self s) (Some d) (log s ++ [EvLoad avatar_info_path]),
       match avator_info_json d with
       | Some _ => Ok false
       | None => Raise (Py.FileNotFoundError "avator_info.json")
       end).
Proof.
  destruct s as [a w l]. unfold need_rebuild, decide_need_to_prepare. simpl.
  intros Hno. unfold bind at 1 2, exists_avatar_path, bind at 1; simpl.
  destruct w as [d|]; [|destruct Hno; by left].
  exists d. split; [done|]. simpl.
  destruct (preparation_force a) eqn:Ef; [destruct Hno; by right; left|].
  simpl. unfold bind at 1, load_file, bind at 1 2. simpl.
  destruct (avator_info_json d) as [stored|] eqn:Es; simpl; [|done].
  rewrite bool_decide_eq_false_2; [done|].
  intros Hne. apply Hno. right; right. by exists d, stored.
Qed.

Lemma no_rebuild_by_decision s :
  snd (decide_need_to_prepare s) = Ok false -> ~ need_rebuild s.
Proof.
  intros E Hneed. destruct (decide_rebuild s Hneed) as [l E'].
  rewrite E' in E. discriminate.
Qed.

Lemma osmakedirs_fresh a l :
  exists l' d,
    osmakedirs [avatar_path; full_imgs_path; video_out_path; mask_out_path]
      (mkState a None l) = (mkState a (Some d) l', Ok tt) /\
    full_imgs d = Some [] /\ mask d = Some [].
Proof. by eexists _, _. Qed.

End InitDecision.



(** C8: when no preparation is needed and [init] returns, what it did
    after reading the manifest is, in this order: load the latents, load
    the coordinates, list and read the full frames, load the mask
    coordinates, list and read the mask frames.  Each image list holds
    the image files of its directory in the order of the numbers their
    stems read as, which is not the order of the file names: ["2.png"]
    comes before ["10.png"], where sorting the names puts it after. *)
Theorem C8_loads_in_order_sorted_by_number `{Models} (src : Source)
    (s s2 : State) :
  ~ need_rebuild s ->
  init src s = (s2, Ok tt) ->
  (exists d latents coords mask_coords full_list mask_list,
     workdir s = Some d /\
     log s2
     = log s ++ EvLoad avatar_info_path :: load_events full_list mask_list /\
     latents_pt d = Some latents /\
     coords_pkl d = Some coords /\
     mask_coords_pkl d = Some mask_coords /\
     numerically_sorted (full_imgs d) full_list /\
     numerically_sorted (mask d) mask_list /\
     input_latent_list_cycle (self s2) = latents /\
     coord_list_cycle (self s2) = coords /\
     frame_list_cycle (self s2) = map snd full_list /\
     mask_coords_list_cycle (self s2) = mask_coords /\
     mask_list_cycle (self s2) = map snd mask_list) /\
  (forall (x y : ndarray) (s0 : State),
     sort_by_stem [("10.png", x); ("2.png", y)] s0
     = (s0, Ok [("2.png", y); ("10.png", x)]) /\
     sort_entries [("2.png", y); ("10.png", x)]
     = [("10.png", x); ("2.png", y)]).
Proof.
  intros Hno Hinit. split; [|by intros x y [a w l]].
  destruct (decide_no_rebuild s Hno) as (d & Hd & E).
  unfold init in Hinit. unfold bind at 1 in Hinit. rewrite E in Hinit.
  destruct (avator_info_json d); [|done].
  unfold bind at 1 in Hinit. simpl in Hinit.
  apply load_materials_ok in Hinit
    as (d0 & latents & coords & mask_coords & full_list & mask_list
        & Hd0 & _ & Hl & Hc & Hmc & Hfull & Hmask & Hlog & Hrest).
  simpl in Hd0, Hlog. injection Hd0 as <-.
  exists d, latents, coords, mask_coords, full_list, mask_list.
  destruct Hrest as (? & ? & ? & ? & ?).
  split; [done|]. split; [by rewrite Hlog, <- app_assoc|].
  by repeat (split; [assumption|]).
Qed.

Lemma C8_witness :
  let s := Demo.reopened 0 false in
  let s2 := fst (@init Demo.models Demo.video5 s) in
  exists full_list mask_list,
    log s2 = log s ++ EvLoad avatar_info_path :: load_events full_list mask_list /\
    frame_list_cycle (self s2) = map snd full_list /\
    mask_list_cycle (self s2) = map snd mask_list /\
    numerically_sorted (workdir s ≫= full_imgs) full_list.
Proof.
  intros s s2.
  destruct (@C8_loads_in_order_sorted_by_number Demo.models Demo.video5 s s2)
    as [(d & latents & coords & mask_coords & full_list & mask_list & Hd
         & Hlog & _ & _ & _ & Hfull & _ & _ & _ & Hf & _ & Hm) _].
  - apply no_rebuild_by_decision. vm_compute. reflexivity.
  - vm_compute. reflexivity.
  - exists full_list, mask_list.
    split; [exact Hlog|]. split; [exact Hf|]. split; [exact Hm|].
    rewrite Hd. exact Hfull.
Defined.

(** * The render: consumer thread, queue and join *)

Lemma cyclic_get_state `{Models} {A} (l : list A) i s :
  exists r, cyclic_get l i s = (s, r).
Proof.
  unfold cyclic_get. case_bool_decide; [eexists; reflexivity|].
  destruct (l !! _); eexists; reflexivity.
Qed.

Lemma imwrite_tmp `{Models} name img s :
  exists s', imwrite tmp_path name img s = (s', Ok tt) /\
    self s' = self s /\
    tmp_of s' = alist_write name img <$> tmp_of s.
Proof.
  destruct s as [a [d|] l]; unfold imwrite, bind, tmp_of; simpl.
  - destruct (tmp d) eqn:E; simpl; eexists; (split; [reflexivity|]);
      simpl; rewrite ?E; auto.
  - eexists; split; [reflexivity|]. auto.
Qed.

Lemma process_frame_spec `{Models} skip c s :
  match process_frame skip c s with
  | (s', Ok Composited) =>
      idx (self s') = (idx (self s) + 1)%Z /\
      if skip then tmp_of s' = tmp_of s
      else exists img,
        tmp_of s' = alist_write (frame_name (idx (self s))) img <$> tmp_of s
  | (s', _) => s' = s
  end.
Proof.
  unfold process_frame, bind at 1. simpl.
  unfold bind at 1.
  destruct (cyclic_get_state (coord_list_cycle (self s)) (idx (self s)) s) as [[bbox|e] ->]; [|done].
  unfold bind at 1.
  destruct (cyclic_get_state (frame_list_cycle (self s)) (idx (self s)) s) as [[ori|e] ->]; [|done].
  destruct bbox as [[[x1 y1] x2] y2].
  destruct (cv2_resize _ _ _ _) as [res|]; [|done].
  unfold bind at 1.
  destruct (cyclic_get_state (mask_list_cycle (self s)) (idx (self s)) s) as [[m|e] ->]; [|done].
  unfold bind at 1.
  destruct (cyclic_get_state (mask_coords_list_cycle (self s)) (idx (self s)) s) as [[mb|e] ->]; [|done].
  destruct (get_image_blending _ _ _ _ _) as [comb|]; [|done].
  destruct skip.
  - destruct s as [a w l]. simpl. done.
  - unfold bind at 1.
    destruct (imwrite_tmp (frame_name (idx (self s))) comb s) as (s' & E & Hs & Ht).
    unfold frame_name in E. rewrite E.
    destruct s' as [a' w' l']. simpl in *. subst a'. split; [done|]. eauto.
Qed.

Section Render.
Context `{Models}.
Variables (video_len : Z) (skip_save_images : bool).

Abbreviation iter := (process_frames_iter video_len skip_save_images).
Abbreviation step := (render_step video_len skip_save_images).

Lemma render_eta (r : Render) :
  r = mkRender (st r) (res_frame_queue r) (to_put r) (process_thread r)
        (skipped r).
Proof. by destruct r. Qed.

Lemma iter_not_running r : process_thread r <> Running -> iter r = r.
Proof. unfold process_frames_iter. by destruct (process_thread r). Qed.

Lemma consume_not_running n r :
  process_thread r <> Running -> consume video_len skip_save_images n r = r.
Proof.
  induction n as [|n IH]; intros Hr; simpl; [done|].
  rewrite iter_not_running by done. by apply IH.
Qed.

(** The cases of one consumer iteration. *)
Lemma iter_cases r :
  process_thread r = Running ->
  (* the closing test *)
  ((idx (self (st r)) >= video_len - 1)%Z /\
   iter r = mkRender (st r) (res_frame_queue r) (to_put r) Returned (skipped r))
  \/ (* a timed-out get *)
  ((idx (self (st r)) < video_len - 1)%Z /\ res_frame_queue r = [] /\ iter r = r)
  \/ (* a crop is taken *)
  (exists c q, (idx (self (st r)) < video_len - 1)%Z /\
     res_frame_queue r = c :: q /\
     match process_frame skip_save_images c (st r) with
     | (s, Ok Composited) => iter r = mkRender s q (to_put r) Running (skipped r)
     | (s, Ok Skipped) => iter r = mkRender s q (to_put r) Running (S (skipped r))
     | (s, Raise e) => iter r = mkRender s q (to_put r) (Died e) (skipped r)
     end).
Proof.
  intros Hr. unfold process_frames_iter. rewrite Hr.
  case_bool_decide as Hi; [left; done|right].
  destruct (res_frame_queue r) as [|c q] eqn:Eq; [left; repeat split; lia|right].
  exists c, q. split; [lia|]. split; [done|].
  by destruct (process_frame _ _ _) as [s [[]|]].
Qed.

Lemma flush_to_put r : to_put (flush r) = [].
Proof. done. Qed.

Lemma flush_idem r : to_put r = [] -> flush r = r.
Proof.
  intros E. destruct r as [s q p t k]. simpl in E. subst p.
  unfold flush. simpl. by rewrite app_nil_r.
Qed.

Lemma iter_to_put r : to_put (iter r) = to_put r.
Proof.
  destruct (process_thread r) eqn:Er; try (rewrite iter_not_running; [done|congruence]).
  destruct (iter_cases r Er) as [[_ ->]|[(_&_&->)|(c&q&_&_&E)]]; [done..|].
  by destruct (process_frame _ _ _) as [s [[]|]]; rewrite E.
Qed.

Lemma consume_to_put n r :
  to_put (consume video_len skip_save_images n r) = to_put r.
Proof.
  revert r. induction n as [|n IH]; intros r; simpl; [done|].
  by rewrite IH, iter_to_put.
Qed.

(** A consumer iteration commutes with the producer's remaining puts,
    unless it is a timed-out [get]. *)
Lemma iter_flush r :
  (process_thread r = Running -> (idx (self (st r)) < video_len - 1)%Z ->
   res_frame_queue r <> []) ->
  iter (flush r) = flush (iter r).
Proof.
  intros Hne.
  destruct (process_thread r) eqn:Er;
    try (rewrite !iter_not_running; [done|simpl; congruence..]).
  destruct (iter_cases r Er) as [[Hi E]|[(Hi&Eq&_)|(c&q&Hi&Eq&E)]].
  - rewrite E. unfold process_frames_iter, flush. simpl. rewrite Er.
    by rewrite bool_decide_eq_true_2.
  - by destruct (Hne eq_refl Hi).
  - unfold process_frames_iter at 1. unfold flush at 1. simpl. rewrite Er, Eq.
    rewrite bool_decide_eq_false_2 by lia. simpl.
    by destruct (process_frame _ _ _) as [s [[]|]]; rewrite E.
Qed.

Lemma settle_step r r' : step r r' ->
  settle video_len skip_save_images r' = settle video_len skip_save_images r.
Proof.
  unfold settle. destruct 1 as [r c b rest E|r rest E|r Er].
  - assert (flush (mkRender (st r) (res_frame_queue r ++ [c]) (b :: rest)
                     (process_thread r) (skipped r)) = flush r) as ->; [|done].
    unfold flush. simpl. rewrite E. simpl. by rewrite <- !app_assoc.
  - assert (flush (mkRender (st r) (res_frame_queue r) rest
                     (process_thread r) (skipped r)) = flush r) as ->; [|done].
    unfold flush. simpl. by rewrite E.
  - destruct (iter_cases r Er) as [[Hi E]|[(Hi&Eq&->)|(c&q&Hi&Eq&E)]]; [|done|].
    + rewrite <- iter_flush by (intros; lia).
      rewrite (consume_not_running _ (iter (flush r))).
      * simpl. rewrite consume_not_running; [done|].
        unfold process_frames_iter, flush; simpl. rewrite Er.
        by rewrite bool_decide_eq_true_2.
      * unfold process_frames_iter, flush; simpl. rewrite Er.
        by rewrite bool_decide_eq_true_2.
    + rewrite <- iter_flush by (intros; rewrite Eq; done).
      assert (length (res_frame_queue (flush r)) =
              S (length (res_frame_queue (iter (flush r))))) as ->; [|done].
      rewrite iter_flush by (intros; rewrite Eq; done).
      unfold flush at 1. simpl. rewrite Eq. simpl. f_equal.
      rewrite iter_to_put.
      by destruct (process_frame _ _ _) as [s [[]|]]; rewrite E.
Qed.

Lemma settle_reachable r0 r : reachable video_len skip_save_images r0 r ->
  settle video_len skip_save_images r = settle video_len skip_save_images r0.
Proof.
  induction 1 as [|r1 r2 r3 Hs _ IH]; [done|].
  rewrite IH. by apply settle_step.
Qed.

Lemma settle_joined r : joined r -> settle video_len skip_save_images r = r.
Proof.
  intros [E Hr]. unfold settle. rewrite flush_idem by done.
  by apply consume_not_running.
Qed.

(** The driving thread can always run to its join. *)
Lemma producer_flushes r : rtc step r (flush r).
Proof.
  remember (to_put r) as batches eqn:E. revert r E.
  induction batches as [|b rest IH]; intros r E.
  - rewrite flush_idem by done. constructor.
  - revert r E. induction b as [|c b IHb]; intros r E.
    + eapply rtc_l; [by apply step_next_batch|].
      assert (flush r = flush (mkRender (st r) (res_frame_queue r) rest
                (process_thread r) (skipped r))) as ->
        by (unfold flush; simpl; by rewrite <- E).
      by apply IH.
    + eapply rtc_l; [by eapply step_put|].
      assert (flush r = flush (mkRender (st r) (res_frame_queue r ++ [c])
                (b :: rest) (process_thread r) (skipped r))) as ->
        by (unfold flush; simpl; rewrite <- E; simpl; by rewrite <- !app_assoc).
      by apply IHb.
Qed.

Lemma consumer_runs n r : rtc step r (consume video_len skip_save_images n r).
Proof.
  revert r. induction n as [|n IH]; intros r; simpl; [constructor|].
  destruct (process_thread r) eqn:Er.
  - eapply rtc_l; [by apply step_consumer|]. apply IH.
  - rewrite iter_not_running by congruence. apply IH.
  - rewrite iter_not_running by congruence. apply IH.
Qed.

Lemma settle_reached r : rtc step r (settle video_len skip_save_images r).
Proof.
  unfold settle. etrans; [apply producer_flushes|apply consumer_runs].
Qed.

End Render.

Section RenderInvariant.
Context `{Models}.
Variables (video_len : Z) (total : nat) (skip_save_images : bool).

Abbreviation iter := (process_frames_iter video_len skip_save_images).
Abbreviation step := (render_step video_len skip_save_images).
Abbreviation inv := (render_inv video_len total skip_save_images).

Lemma inv_start s batches :
  idx (self s) = 0%Z ->
  (skip_save_images = false -> tmp_of s = Some []) ->
  length (concat batches) = total ->
  inv (mkRender s [] batches Running 0).
Proof.
  intros Hi Ht Hn. constructor; simpl; rewrite ?Hi; try lia; [done|].
  intros E. by rewrite (Ht E).
Qed.

Lemma inv_iter r : inv r -> inv (iter r).
Proof.
  intros [Hlo Hhi Hret Hcnt Htmp].
  destruct (process_thread r) eqn:Er;
    try (rewrite iter_not_running by congruence; constructor; by rewrite ?Er).
  destruct (iter_cases video_len skip_save_images r Er)
    as [[Hi ->]|[(Hi&Eq&->)|(c&q&Hi&Eq&E)]].
  - constructor; simpl; rewrite ?Er in *; simpl in *; try done; lia.
  - constructor; by rewrite ?Er.
  - pose proof (process_frame_spec skip_save_images c (st r)) as Hp.
    rewrite Eq in Hcnt. simpl in Hcnt.
    destruct (process_frame _ _ _) as [s [[]|e]]; rewrite E; clear E.
    + destruct Hp as [Hidx Hp]. constructor; simpl; rewrite ?Hidx; try lia; [done|].
      intros Hs. specialize (Htmp Hs). rewrite Hs in Hp.
      destruct Hp as [img ->].
      destruct (tmp_of (st r)) as [files|]; [|done]. simpl in *.
      injection Htmp as Htmp.
      rewrite alist_write_fresh, Htmp, seqZ_snoc, fmap_app by
        (try rewrite Htmp; try apply frame_name_fresh; lia).
      done.
    + subst s. constructor; simpl; try done; lia.
    + subst s. constructor; simpl; try done; lia.
Qed.

Lemma inv_step r r' : inv r -> step r r' -> inv r'.
Proof.
  intros Hinv Hs. destruct Hs as [r c b rest E|r rest E|r Er];
    [| |by apply inv_iter].
  - destruct Hinv as [Hlo Hhi Hret Hcnt Htmp]. constructor; simpl; try done.
    rewrite E in Hcnt. simpl in Hcnt. rewrite length_app. simpl.
    rewrite !length_app in *. simpl in *. lia.
  - destruct Hinv as [Hlo Hhi Hret Hcnt Htmp]. constructor; simpl; try done.
    by rewrite E in Hcnt.
Qed.

Lemma inv_reachable r0 r :
  inv r0 -> reachable video_len skip_save_images r0 r -> inv r.
Proof. intros H0. induction 1; eauto using inv_step. Qed.

(** A consumer that is still running after more iterations than queued
    crops is waiting on the empty queue, short of its closing test. *)
Lemma consume_starved n r :
  process_thread (consume video_len skip_save_images n r) = Running ->
  (length (res_frame_queue r) < n)%nat ->
  res_frame_queue (consume video_len skip_save_images n r) = [] /\
  (idx (self (st (consume video_len skip_save_images n r))) < video_len - 1)%Z.
Proof.
  revert r. induction n as [|n IH]; intros r Hrun Hlen; [lia|].
  simpl in *.
  destruct (process_thread r) eqn:Er;
    try (rewrite iter_not_running, consume_not_running in Hrun; congruence).
  destruct (iter_cases video_len skip_save_images r Er)
    as [[Hi E]|[(Hi&Eq&E)|(c&q&Hi&Eq&E)]].
  - rewrite E, consume_not_running in Hrun; done.
  - rewrite E in *. destruct n as [|n]; [done|]. apply IH; [done|].
    rewrite Eq. simpl. lia.
  - rewrite Eq in Hlen. simpl in Hlen.
    destruct (process_frame _ _ _) as [s [[]|e]]; rewrite E in *.
    + apply IH; [done|simpl; lia].
    + apply IH; [done|simpl; lia].
    + rewrite consume_not_running in Hrun; done.
Qed.

(** Steps other than a timed-out [get] lower [work_left]. *)
Lemma step_work_left r r' : step r r' -> r' = r \/ (work_left r' < work_left r)%nat.
Proof.
  intros Hs. destruct Hs as [r1 c b rest E|r1 rest E|r1 Er];
    unfold work_left; simpl.
  - right. rewrite E. simpl. rewrite !length_app. simpl. lia.
  - right. rewrite E. simpl. lia.
  - destruct (iter_cases video_len skip_save_images r1 Er)
      as [[Hi ->]|[(Hi&Eq&->)|(c&q&Hi&Eq&E)]]; [right|by left|right].
    + simpl. rewrite Er. simpl. lia.
    + rewrite Er, Eq.
      destruct (process_frame _ _ _) as [s [[]|e]]; rewrite E; simpl; lia.
Qed.

End RenderInvariant.

Section RenderTheorems.
Context `{Models}.

Lemma in_flight_step video_len skip_save_images r r' :
  render_step video_len skip_save_images r r' ->
  (in_flight r' <= in_flight r)%nat.
Proof.
  intros Hs. destruct Hs as [r c b rest E|r rest E|r Er]; unfold in_flight; simpl.
  - rewrite E. simpl. rewrite !length_app. simpl. lia.
  - rewrite E. simpl. lia.
  - destruct (iter_cases video_len skip_save_images r Er)
      as [[Hi ->]|[(Hi&Eq&->)|(c&q&Hi&Eq&E)]]; [done..|].
    rewrite Eq.
    destruct (process_frame _ _ _) as [s [[]|e]]; rewrite E; simpl; lia.
Qed.

Lemma in_flight_reachable video_len skip_save_images r0 r :
  reachable video_len skip_save_images r0 r ->
  (in_flight r <= in_flight r0)%nat.
Proof.
  induction 1 as [|r1 r2 r3 Hs _ IH]; [done|].
  apply in_flight_step in Hs. lia.
Qed.

(** Every interleaving that reaches the join ends in the same state. *)
Lemma joined_is_settled video_len skip_save_images r0 r :
  reachable video_len skip_save_images r0 r -> joined r ->
  r = settle video_len skip_save_images r0.
Proof.
  intros Hr Hj. rewrite <- (settle_reachable _ _ _ _ Hr).
  symmetry. by apply settle_joined.
Qed.

Lemma settle_to_put video_len skip_save_images r :
  to_put (settle video_len skip_save_images r) = [].
Proof. unfold settle. by rewrite consume_to_put. Qed.

Lemma settle_starved video_len skip_save_images r :
  process_thread (settle video_len skip_save_images r) = Running ->
  res_frame_queue (settle video_len skip_save_images r) = [] /\
  (idx (self (st (settle video_len skip_save_images r))) < video_len - 1)%Z.
Proof. unfold settle. intros Hr. apply consume_starved; [done|lia]. Qed.

(** A consumer that ends by its closing test has composited
    [video_len - 1] frames (none when [video_len] is not positive). *)
Lemma returned_idx video_len total skip_save_images r :
  render_inv video_len total skip_save_images r ->
  process_thread r = Returned ->
  idx (self (st r)) = Z.max (video_len - 1) 0.
Proof. intros [Hlo Hhi Hret _ _] Er. specialize (Hret Er). lia. Qed.

End RenderTheorems.

(** C5 (as stated, refuted): no capacity bounds the queue.  With the demo
    collaborators and [capacity + 1] chunks, the driving thread puts every
    crop before the consumer takes one. *)
Lemma C5_no_capacity : ~ exists capacity, @queue_bounded Demo.models capacity.
Proof.
  intros [capacity Hb].
  pose (chunks := replicate (S capacity) 110%Z : list (@whisper_chunk Demo.models)).
  specialize (Hb Demo.ready5 chunks false
                (flush (start_render Demo.ready5 chunks))
                (producer_flushes _ _ _)).
  revert Hb. unfold flush, start_render. simpl.
  assert (forall l : list Z, length (concat (map (fun w => [(w - 100)%Z]) l)) = length l)
    as -> by (induction l; simpl; auto).
  unfold chunks. rewrite length_replicate. lia.
Qed.

(** C5 (amended): the queue is [queue.Queue()] without a size: a put is
    possible whenever a crop is left to put, so it never blocks, and the
    queue is bounded only by the render itself: what it holds and what is
    still to be put never exceed the crops of the render. *)
Theorem C5_queue_unbounded_put_never_blocks `{Models}
    (s : State) (whisper_chunks : list whisper_chunk)
    (skip_save_images : bool) (r : Render) :
  reachable (video_num whisper_chunks) skip_save_images
    (start_render s whisper_chunks) r ->
  (in_flight r <= in_flight (start_render s whisper_chunks))%nat /\
  forall res_frame recon rest,
    to_put r = (res_frame :: recon) :: rest ->
    render_step (video_num whisper_chunks) skip_save_images r
      (mkRender (st r) (res_frame_queue r ++ [res_frame]) (recon :: rest)
         (process_thread r) (skipped r)).
Proof.
  intros Hr. split; [by eapply in_flight_reachable|].
  intros c b rest E. by apply step_put.
Qed.

Lemma C5_witness :
  let chunks := @whisper_chunks_of Demo.models Demo.audio7 25 in
  let r0 := @start_render Demo.models Demo.ready5 chunks in
  (in_flight (flush r0) <= in_flight r0)%nat /\
  forall res_frame recon rest,
    to_put (flush r0) = (res_frame :: recon) :: rest ->
    render_step (video_num chunks) false (flush r0)
      (mkRender (st (flush r0)) (res_frame_queue (flush r0) ++ [res_frame])
         (recon :: rest) (process_thread (flush r0)) (skipped (flush r0))).
Proof.
  intros chunks r0.
  apply (C5_queue_unbounded_put_never_blocks Demo.ready5 chunks false (flush r0)).
  apply producer_flushes.
Defined.

(** C1 (the code at the failing input): seven chunks, every crop resizes.
    Whatever the interleaving, the render ends with six composited frames,
    numbered 0 to 5, with the counter at 6 and the seventh crop still in
    the queue: the closing test is [idx >= video_len - 1]. *)
Theorem C1_seven_chunks_six_frames (r : @Render Demo.models) :
  reachable 7 false (Demo.started Demo.audio7) r -> joined r ->
  process_thread r = Returned /\
  skipped r = 0%nat /\
  idx (self (st r)) = 6%Z /\
  map fst <$> tmp_of (st r)
  = Some ["00000000.png"; "00000001.png"; "00000002.png";
          "00000003.png"; "00000004.png"; "00000005.png"] /\
  length (res_frame_queue r) = 1%nat.
Proof.
  intros Hr Hj. rewrite (joined_is_settled _ _ _ _ Hr Hj).
  vm_compute. done.
Qed.

Lemma C1_witness :
  let r := settle 7 false (Demo.started Demo.audio7) in
  process_thread r = Returned /\
  skipped r = 0%nat /\
  idx (self (st r)) = 6%Z /\
  map fst <$> tmp_of (st r)
  = Some ["00000000.png"; "00000001.png"; "00000002.png";
          "00000003.png"; "00000004.png"; "00000005.png"] /\
  length (res_frame_queue r) = 1%nat.
Proof.
  apply (C1_seven_chunks_six_frames (settle 7 false (Demo.started Demo.audio7))).
  - apply settle_reached.
  - vm_compute. split; [reflexivity|discriminate].
Defined.



(** * The video assembler: the end of [inference] *)

Lemma dir_of_tmp `{Models} (s : State) :
  is_Some (workdir s ≫= tmp) ->
  exists d, workdir s = Some d /\ is_Some (tmp d).
Proof. destruct (workdir s) as [d|]; simpl; [eauto|]. by intros [? [=]]. Qed.

(** The working directory after the render of seven chunks joins holds
    the frame directory. *)
Lemma demo_rendered_dir :
  exists d,
    workdir (st (settle 7 false (Demo.started Demo.audio7))) = Some d /\
    is_Some (tmp d).
Proof. apply dir_of_tmp. vm_compute. by eexists. Qed.

(** C4 (as stated, refuted): the first encoder run succeeds and writes the
    intermediate video, the second exits with status 1.  The intermediate
    video and the frame directory are removed all the same. *)
Lemma C4_failed_mux_still_cleans_up :
  ~ @cleanup_follows_exit_status Demo.models
      (st (settle 7 false (Demo.started Demo.audio7))) "out.mp4"
      (mkEncoderRun 0 true) (mkEncoderRun 1 false).
Proof.
  unfold cleanup_follows_exit_status. intros [_ Hkeep].
  assert (temp_mp4 <$>
            workdir (fst (@inference_finish Demo.models "out.mp4"
                            (mkEncoderRun 0 true) (mkEncoderRun 1 false)
                            (st (settle 7 false (Demo.started Demo.audio7)))))
          = Some false) as Hgone by (vm_compute; reflexivity).
  destruct Hkeep as (d & Hd & Hmp4 & _).
  - intros [_ Hok]. unfold encoder_ok in Hok. simpl in Hok. discriminate.
  - rewrite Hd in Hgone. simpl in Hgone. congruence.
Qed.

(** C4 (amended): the end of [inference] never looks at an exit status.
    With the frame directory in place, whenever the intermediate video
    exists after the first encoder run (written by it, or left from
    before), the video and the frame directory are both removed and
    [output_vid] is returned, whatever the two exit statuses; when it
    does not exist, [os.remove] raises [FileNotFoundError] and the frame
    directory stays in place. *)
Theorem C4_cleanup_ignores_exit_status `{Models} (s : State) (d : AvatarDir)
    (output_vid : string) (img2video combine_audio : EncoderRun) :
  workdir s = Some d ->
  is_Some (tmp d) ->
  let '(s', res) := inference_finish output_vid img2video combine_audio s in
  if wrote_output img2video || temp_mp4 d then
    res = Ok output_vid /\ artifacts_removed s'
  else
    res = Raise (Py.FileNotFoundError "temp.mp4") /\
    exists d', workdir s' = Some d' /\ tmp d' = tmp d /\ temp_mp4 d' = false.
Proof.
  intros Hd [files Ht]. destruct s as [a w l]. simpl in Hd. subst w.
  unfold inference_finish, system_img2video, system_combine_audio,
    remove_temp_mp4, rmtree_tmp, bind. simpl.
  destruct (wrote_output img2video); simpl.
  - rewrite Ht. simpl. split; [done|]. eexists. by repeat split.
  - destruct (temp_mp4 d) eqn:Em; simpl.
    + rewrite Ht. simpl. split; [done|]. eexists. by repeat split.
    + split; [done|]. eexists. by repeat split.
Qed.

Lemma C4_witness :
  let s := st (settle 7 false (Demo.started Demo.audio7)) in
  let '(s', res) :=
    @inference_finish Demo.models "out.mp4"
      (mkEncoderRun 1 true) (mkEncoderRun 1 false) s in
  res = Ok "out.mp4" /\ artifacts_removed s'.
Proof.
  destruct demo_rendered_dir as (d & Ed & Ht).
  exact (C4_cleanup_ignores_exit_status _ d "out.mp4"
           (mkEncoderRun 1 true) (mkEncoderRun 1 false) Ed Ht).
Defined.

(** * The login endpoint *)

Section UsersFacts.
Context `{Users.Auth}.

Lemma authenticate_user_absent db name password :
  db !! name = None ->
  Users.authenticate_user db name password = Ok None.
Proof. intros E. unfold Users.authenticate_user, Users.get_user. by rewrite E. Qed.

Lemma authenticate_user_bad_password db name password u :
  Users.get_user db name = Ok (Some u) ->
  Users.verify_password password (Users.hashed_password u) = false ->
  Users.authenticate_user db name password = Ok None.
Proof. intros E Hv. unfold Users.authenticate_user. by rewrite E, Hv. Qed.

Lemma authenticate_user_some db name password u :
  Users.authenticate_user db name password = Ok (Some u) ->
  Users.get_user db name = Ok (Some u) /\
  Users.verify_password password (Users.hashed_password u) = true.
Proof.
  unfold Users.authenticate_user.
  destruct (Users.get_user db name) as [[u'|]|e]; [|done..].
  destruct (Users.verify_password password (Users.hashed_password u')) eqn:Ev;
    simpl; [|done].
  by intros [= <-].
Qed.

Lemma int_timestamp_plus_seven_days t :
  (0 <= t)%Z ->
  Users.int_timestamp (t + Users.seven_days_us)
  = (Users.int_timestamp t + 7 * 86400)%Z.
Proof.
  intros Ht. unfold Users.int_timestamp, Users.seven_days_us.
  rewrite !Z.quot_div_nonneg by lia.
  replace (t + 7 * 86400 * 1000000)%Z with (t + (7 * 86400) * 1000000)%Z by lia.
  by rewrite Z.div_add by lia.
Qed.

End UsersFacts.


